(** * ai_aknf_filter: a shallow embedding of the compress / dispatch /
      reconstruct pipeline of [src/ai_aknf_filter.py]

    Python [str] values are modelled as [string]: a sequence of code points
    below 256 (the Latin-1 block), one [ascii] per code point.  Characters
    that only exist above that block are outside the model.  A [dict] is a
    [gmap], a [set] a [gset], console output a list of events. *)

From Stdlib Require Import ZArith NArith Ascii String List Lia Bool.
From stdpp Require Import gmap strings list sorting.

Local Open Scope N_scope.

(** ** Characters *)

Definition ord (c : ascii) : N := N_of_ascii c.

Definition chr (n : N) : ascii := ascii_of_N n.

(** [str.isspace] on one code point, which is also the class [\s] of [re]
    for [str] patterns: TAB..CR, FS..US, SPACE, NEL and NBSP. *)
Definition isspace (c : ascii) : bool :=
  let n := ord c in
  ((9 <=? n) && (n <=? 13)) || ((28 <=? n) && (n <=? 32))
  || (n =? 133) || (n =? 160).

(** [str.upper] and [str.lower] on one code point.  Inside Latin-1 the
    lower-case letters are a..z and U+00E0..U+00FE without the division
    sign; the images of U+00B5, U+00DF and U+00FF lie outside the block
    (or are two letters), so these three are left as they are: none of
    them maps to a letter of a reserved device name or of ".dat". *)
Definition upper_char (c : ascii) : ascii :=
  let n := ord c in
  if ((97 <=? n) && (n <=? 122))
     || ((224 <=? n) && (n <=? 254) && negb (n =? 247))
  then chr (n - 32) else c.

Definition lower_char (c : ascii) : ascii :=
  let n := ord c in
  if ((65 <=? n) && (n <=? 90))
     || ((192 <=? n) && (n <=? 222) && negb (n =? 215))
  then chr (n + 32) else c.

Local Close Scope N_scope.

(** ** Strings *)

Module Str.

Fixpoint map (f : ascii -> ascii) (s : string) : string :=
  match s with
  | EmptyString => EmptyString
  | String c s' => String (f c) (map f s')
  end.

Fixpoint filter (p : ascii -> bool) (s : string) : string :=
  match s with
  | EmptyString => EmptyString
  | String c s' => if p c then String c (filter p s') else filter p s'
  end.

Fixpoint forallb (p : ascii -> bool) (s : string) : bool :=
  match s with
  | EmptyString => true
  | String c s' => p c && forallb p s'
  end.

Fixpoint take (n : nat) (s : string) : string :=
  match n, s with
  | S k, String c s' => String c (take k s')
  | _, _ => EmptyString
  end.

Fixpoint drop (n : nat) (s : string) : string :=
  match n, s with
  | S k, String _ s' => drop k s'
  | _, _ => s
  end.

(** number of leading characters satisfying [p] *)
Fixpoint span_len (p : ascii -> bool) (s : string) : nat :=
  match s with
  | String c s' => if p c then S (span_len p s') else 0
  | EmptyString => 0
  end.

Definition first (s : string) : option ascii :=
  match s with
  | String c _ => Some c
  | EmptyString => None
  end.

Fixpoint last (s : string) : option ascii :=
  match s with
  | EmptyString => None
  | String c EmptyString => Some c
  | String _ s' => last s'
  end.

(** [s.startswith(p)] *)
Fixpoint startswith (p s : string) : bool :=
  match p, s with
  | EmptyString, _ => true
  | String a p', String b s' => Ascii.eqb a b && startswith p' s'
  | String _ _, EmptyString => false
  end.

(** [sub in s] *)
Fixpoint contains (sub s : string) : bool :=
  startswith sub s
  || match s with
     | EmptyString => false
     | String _ s' => contains sub s'
     end.

(** [s.lstrip(chars)], [s.rstrip(chars)], with the set as a predicate *)
Fixpoint lstrip_by (p : ascii -> bool) (s : string) : string :=
  match s with
  | EmptyString => EmptyString
  | String c s' => if p c then lstrip_by p s' else s
  end.

Fixpoint rstrip_by (p : ascii -> bool) (s : string) : string :=
  match s with
  | EmptyString => EmptyString
  | String c s' =>
      match rstrip_by p s' with
      | EmptyString => if p c then EmptyString else String c EmptyString
      | r => String c r
      end
  end.

(** [s.strip()] *)
Definition strip (s : string) : string :=
  rstrip_by isspace (lstrip_by isspace s).

(** [s.replace(a, b)] for single characters *)
Definition replace_char (a b : ascii) (s : string) : string :=
  map (fun c => if Ascii.eqb c a then b else c) s.

Definition upper (s : string) : string := map upper_char s.
Definition lower (s : string) : string := map lower_char s.

(** [s.split(sep, 1)]: [None] stands for the one-element list [[s]],
    [Some (a, b)] for [[a, b]], cut at the leftmost occurrence. *)
Fixpoint split_once (sep s : string) : option (string * string) :=
  if startswith sep s then Some (EmptyString, drop (String.length sep) s)
  else match s with
       | EmptyString => None
       | String c s' =>
           match split_once sep s' with
           | Some (a, b) => Some (String c a, b)
           | None => None
           end
       end.

(** [s * n] *)
Fixpoint repeat (s : string) (n : nat) : string :=
  match n with
  | O => EmptyString
  | S k => s +:+ repeat s k
  end.

(** ["\n".join(parts)] *)
Fixpoint join (sep : string) (parts : list string) : string :=
  match parts with
  | [] => EmptyString
  | [p] => p
  | p :: rest => p +:+ sep +:+ join sep rest
  end.

End Str.

(** ** Regular expressions

    Every pattern of the source is modelled by a matcher: a function that,
    given the text from the current position on, answers with the length of
    the match that [re] finds starting there, if any.  [re.sub] scans from
    the left, replaces a match and resumes behind it, and otherwise copies
    one character.  None of the patterns used can match the empty string. *)

Module Re.

Definition matcher := string -> option nat.

(** [skip] characters of a match already replaced are still to be
    consumed. *)
Fixpoint sub_go (m : matcher) (repl : string) (skip : nat) (s : string)
  : string :=
  match s with
  | EmptyString => EmptyString
  | String c s' =>
      match skip with
      | S k => sub_go m repl k s'
      | O =>
          match m s with
          | Some (S n) => repl +:+ sub_go m repl n s'
          | _ => String c (sub_go m repl 0 s')
          end
      end
  end.

(** [re.sub(pattern, repl, s)] for an unanchored pattern *)
Definition sub (m : matcher) (repl : string) (s : string) : string :=
  sub_go m repl 0 s.

(** [re.sub("^" + pattern, repl, s)]: only position 0 can match *)
Definition sub_anchored (m : matcher) (repl : string) (s : string)
  : string :=
  match m s with
  | Some n => repl +:+ Str.drop n s
  | None => s
  end.

(** index of the first occurrence of [c] in [s] *)
Fixpoint find_char (c : ascii) (s : string) : option nat :=
  match s with
  | EmptyString => None
  | String d s' =>
      if Ascii.eqb d c then Some 0
      else match find_char c s' with
           | Some i => Some (S i)
           | None => None
           end
  end.

(** index of the first occurrence of [p] in [s] that lies on one line
    counted from the start ([.] does not match a newline) *)
Fixpoint find_on_line (p : string) (s : string) : option nat :=
  if Str.startswith p s then Some 0
  else match s with
       | EmptyString => None
       | String c s' =>
           if Ascii.eqb c "010" then None
           else match find_on_line p s' with
                | Some i => Some (S i)
                | None => None
                end
       end.

(** The parenthetical-qualifier pattern: optional blanks, an opening
    parenthesis, the shortest text up to the next closing one, optional
    blanks. *)
Definition paren_group : matcher := fun s =>
  let n1 := Str.span_len isspace s in
  match Str.drop n1 s with
  | String "(" r =>
      match find_char ")" r with
      | Some i =>
          let after := Str.drop (S i) r in
          Some (n1 + 1 + i + 1 + Str.span_len isspace after)
      | None => None
      end
  | _ => None
  end.

(** two or more blanks *)
Definition spaces2 : matcher := fun s =>
  let n := Str.span_len isspace s in
  if 2 <=? n then Some n else None.

(** one or more blanks *)
Definition spaces1 : matcher := fun s =>
  let n := Str.span_len isspace s in
  if 1 <=? n then Some n else None.

(** a single character of a character class *)
Definition one_of (p : ascii -> bool) : matcher := fun s =>
  match s with
  | String c _ => if p c then Some 1 else None
  | EmptyString => None
  end.

(** The XML declaration pattern, used anchored at the start: optional
    blanks, the five characters opening a declaration, the shortest text
    without a newline up to the closing question mark and angle. *)
Definition xml_decl : matcher := fun s =>
  let n1 := Str.span_len isspace s in
  let r := Str.drop n1 s in
  if Str.startswith "<?xml" r then
    match find_on_line "?>" (Str.drop 5 r) with
    | Some i => Some (n1 + 5 + i + 2)
    | None => None
    end
  else None.

End Re.

(** ** Console details: [extract_console_details] *)

Definition UNKNOWN_MAKER : string := "Produttore Sconosciuto".

(** The two [re.sub] calls, each followed by [strip]. *)
Definition cleaned_name (raw_name : string) : string :=
  let cleaned := Str.strip (Re.sub Re.paren_group " " raw_name) in
  Str.strip (Re.sub Re.spaces2 " " cleaned).

(** [raw_name] is [None] for Python's [None].  The [except] branch of the
    source is not modelled: on a [str] neither [re.sub], [strip] nor
    [split] raises. *)
Definition extract_console_details (raw_name : option string)
  : string * string :=
  match raw_name with
  | None => ("Sconosciuto", "Nome Console Sconosciuto")
  | Some raw =>
      let cleaned := cleaned_name raw in
      match Str.split_once " - " cleaned with
      | Some (p0, p1) =>
          let maker := Str.strip p0 in
          let name := Str.strip p1 in
          let maker :=
            if String.eqb maker "" then UNKNOWN_MAKER else maker in
          (maker, name)
      | None => (UNKNOWN_MAKER, cleaned)
      end
  end.

(** ** XML elements

    An element as [xml.etree.ElementTree] and [lxml.etree] expose it: a tag,
    attributes in document order, optional text, children, optional tail
    text. *)

#[local] Set Warnings "-register-all".

Inductive Element : Type :=
  mkElement {
      tag : string;
      attrib : list (string * string);
      text : option string;
      children : list Element;
      tail : option string
    }.

Definition set_text (e : Element) (t : option string) : Element :=
  mkElement (tag e) (attrib e) t (children e) (tail e).

Definition set_children (e : Element) (cs : list Element) : Element :=
  mkElement (tag e) (attrib e) (text e) cs (tail e).

(** [Element.get(key)] *)
Fixpoint get (key : string) (attrs : list (string * string))
  : option string :=
  match attrs with
  | [] => None
  | (k, v) :: rest => if String.eqb k key then Some v else get key rest
  end.

(** [Element.find(tag)]: the first direct child with that tag, together
    with its position among the children (the position is what
    [list(element).index(child)] returns for it, children being compared
    by identity). *)
Fixpoint find (t : string) (cs : list Element) : option (nat * Element) :=
  match cs with
  | [] => None
  | e :: rest =>
      if String.eqb (tag e) t then Some (0, e)
      else match find t rest with
           | Some (i, x) => Some (S i, x)
           | None => None
           end
  end.

(** All descendants in document order, the element itself excluded. *)
Fixpoint descendants (e : Element) : list Element :=
  match e with
  | mkElement _ _ _ cs _ =>
      (fix go (l : list Element) : list Element :=
         match l with
         | [] => []
         | c :: l' => c :: descendants c ++ go l'
         end) cs
  end.

(** [Element.findall('.//' + tag)] *)
Definition findall_descendants (t : string) (e : Element) : list Element :=
  List.filter (fun x => String.eqb (tag x) t) (descendants e).

(** [list.insert(index, x)] for a non-negative index *)
Definition list_insert_at {A} (i : nat) (x : A) (l : list A) : list A :=
  take i l ++ x :: drop i l.

(** ** Header mutation (the first [try] block of
    [reconstruct_filtered_dat], on the parsed header) *)

Definition SCRIPT_VERSION : string := "1.0.15".
Definition MARKER : string := "(GeminiAKNF)".

Definition mutate_description (header_element : Element) : Element :=
  match find "description" (children header_element) with
  | Some (i, desc_tag) =>
      let original_desc :=
        match text desc_tag with
        | Some t => if String.eqb t "" then "" else Str.strip t
        | None => ""
        end in
      if negb (Str.contains MARKER original_desc) then
        let desc_tag' :=
          set_text desc_tag
            (Some (Str.strip (original_desc +:+ " " +:+ MARKER))) in
        set_children header_element
          (<[i := desc_tag']> (children header_element))
      else header_element
  | None =>
      set_children header_element
        (children header_element
           ++ [mkElement "description" [] (Some MARKER) [] None])
  end.

Definition aknf_tag : Element :=
  mkElement "geminiaknf" []
    (Some ("Created by Gemini AKNF ver. " +:+ SCRIPT_VERSION)) [] None.

(** Removal of a prior [geminiaknf] child. *)
Definition remove_existing_aknf (cs : list Element) : list Element :=
  match find "geminiaknf" cs with
  | Some (i, _) => delete i cs
  | None => cs
  end.

Definition insert_index (cs : list Element) : nat :=
  match find "retool" cs with
  | Some (i, _) => i + 1
  | None =>
      match find "clrmamepro" cs with
      | Some (i, _) => i
      | None => length cs
      end
  end.

Definition mutate_header (header_element : Element) : Element :=
  let h := mutate_description header_element in
  let cs := remove_existing_aknf (children h) in
  set_children h (list_insert_at (insert_index cs) aknf_tag cs).

(** The text of the description field of a header, if it has one. *)
Definition description_text (header_element : Element)
  : option (option string) :=
  match find "description" (children header_element) with
  | Some (_, d) => Some (text d)
  | None => None
  end.

(** ** Effects: console, files, oracle calls *)

(** What the source prints, one constructor per message. *)
Inductive Event : Type :=
| Progress (msg : string)
| ApiFailed
| ApiDeclined (reason : option string)
| ApiReceived
| InvalidStart (head : string)
| SavedInvalid
| CannotSaveInvalid
| NoResponse
| AiParseFailed (head : string)
| SavedFailed
| HeaderFallback
| RequestedUnique (n : nat)
| MissingGame (name : string)
| Completed (found missing : nat)
| MissingHint
| PrettyPrintFailed.

(** [fs_writable = false] stands for an [open(..., "w")] that raises;
    [api_calls] counts the requests sent to the oracle. *)
Record World : Type :=
  mkWorld {
      console : list Event;
      files : gmap string string;
      fs_writable : bool;
      api_calls : nat
    }.

Definition M (A : Type) : Type := World -> A * World.

#[global] Instance M_ret : MRet M := fun A x w => (x, w).
#[global] Instance M_bind : MBind M :=
  fun A B f m w => let (x, w') := m w in f x w'.

Definition print (e : Event) : M unit := fun w =>
  (tt, mkWorld (console w ++ [e]) (files w) (fs_writable w) (api_calls w)).

(** [True] when the file was written, [False] when writing raised. *)
Definition write_file (name content : string) : M bool := fun w =>
  if fs_writable w
  then (true, mkWorld (console w) (<[name := content]> (files w))
                (fs_writable w) (api_calls w))
  else (false, w).

Definition count_api_call : M unit := fun w =>
  (tt, mkWorld (console w) (files w) (fs_writable w) (S (api_calls w))).

(** ** Catalog Store and Compressor: [parse_and_compress_dat] *)

Definition NL : string := String "010" "".
Definition QUOTE : string := String (chr 34) "".

(** [html.escape(value, quote=True)] *)
Fixpoint html_escape (s : string) : string :=
  match s with
  | EmptyString => EmptyString
  | String c s' =>
      (if Ascii.eqb c "&" then "&amp;"
       else if Ascii.eqb c "<" then "&lt;"
       else if Ascii.eqb c ">" then "&gt;"
       else if Ascii.eqb c (chr 34) then "&quot;"
       else if Ascii.eqb c "'" then "&#x27;"
       else String c "") +:+ html_escape s'
  end.

Definition escape_xml_attribute (value : option string) : string :=
  match value with
  | None => ""
  | Some v => html_escape v
  end.

Definition XML_PREAMBLE : string := "<?xml version='1.0' encoding='utf-8'?>".

Definition MISSING_HEADER_XML : string :=
  "<header><name>Header Mancante</name>"
  +:+ "<description>Header originale non trovato o illeggibile."
  +:+ "</description></header>".

(** What the XML parser answers for a whole input. *)
Inductive ParseResult : Type :=
| Parsed (root : Element)
| ParseError
| OtherError.

(** The XML library is a parameter of the pipeline: [fromstring] is
    [ET.fromstring] with the recovering parser ([None] when it raises or
    yields no root), [parse] is [ET.parse] on the content of a file,
    [tostring pretty e] is [ET.tostring(e, encoding='unicode')], with
    [pretty_print=True] when [pretty], and [pretty_final] is the closing
    re-parse and pretty-print of the whole document ([None] when it
    raises). *)
Class XmlLibrary : Type :=
  {
    LXML_AVAILABLE : bool;
    fromstring : string -> option Element;
    parse : string -> ParseResult;
    tostring : bool -> Element -> string;
    pretty_final : string -> option string
  }.

Section Pipeline.

Context {xml : XmlLibrary}.

(** The body of the loop over the game elements. *)
Definition store_game
  (acc : gmap string string * list string) (game_elem : Element)
  : gmap string string * list string :=
  let '(original_games_data, compressed_game_tags) := acc in
  match get "name" (attrib game_elem) with
  | Some game_name =>
      if negb (String.eqb game_name "") then
        let game_xml_str := tostring false game_elem in
        (<[game_name := game_xml_str]> original_games_data,
         compressed_game_tags
           ++ ["<game name=" +:+ QUOTE
               +:+ escape_xml_attribute (Some game_name)
               +:+ QUOTE +:+ "/>"])
      else acc
  | None => acc
  end.

Definition collect_games (game_elements : list Element)
  : gmap string string * list string :=
  fold_left store_game game_elements (∅, []).

(** The six components of the tuple returned by the source. *)
Record Catalog : Type :=
  mkCatalog {
      console_maker : string;
      console_name : string;
      original_header_xml : option string;
      original_games_data : option (gmap string string);
      compressed_dat_content : option string;
      game_count_original : nat
    }.

Definition parse_and_compress_dat (file_stem : string) (content : string)
  : Catalog :=
  match parse content with
  | ParseError =>
      mkCatalog "Sconosciuto" "Errore Parsing XML" None None None 0
  | OtherError =>
      mkCatalog "Sconosciuto" "Errore Parsing Generico" None None None 0
  | Parsed root =>
      let '(header_xml, (maker, name)) :=
        match find "header" (children root) with
        | Some (_, header_element) =>
            (tostring false header_element,
             match find "name" (children header_element) with
             | Some (_, mkElement _ _ (Some console_name_raw) _ _) =>
                 extract_console_details (Some console_name_raw)
             | _ => ("Sconosciuto", "Nome Console Sconosciuto")
             end)
        | None =>
            (MISSING_HEADER_XML,
             ("Sconosciuto", "Nome Console Sconosciuto"))
        end in
      let '(maker, name) :=
        if String.eqb name "Nome Console Sconosciuto"
           && String.eqb maker "Sconosciuto"
        then extract_console_details (Some file_stem)
        else (maker, name) in
      let game_elements := findall_descendants "game" root in
      let '(games_data, compressed_game_tags) :=
        collect_games game_elements in
      let header_str := Str.strip header_xml in
      let compressed :=
        XML_PREAMBLE +:+ NL +:+ "<datafile>" +:+ NL +:+ header_str
        +:+ NL +:+ Str.join NL compressed_game_tags
        +:+ NL +:+ "</datafile>" in
      mkCatalog maker name (Some header_xml) (Some games_data)
        (Some compressed) (length game_elements)
  end.

End Pipeline.

(** ** Oracle Gateway: [call_gemini_api] *)

(** What [model.generate_content] does: it raises, or answers with an
    object whose [text] may be missing and whose prompt feedback may carry
    a block reason. *)
Inductive ApiResult : Type :=
| ApiRaised
| ApiAnswer (text : option string) (block_reason : option string).

Class Oracle : Type := { generate_content : string -> ApiResult }.

Module Fence.

Definition BACKTICKS : string := "```".

(** The opening fence with its language tag, case-insensitive, followed
    by optional blanks. *)
Definition open_xml : Re.matcher := fun s =>
  if Str.startswith BACKTICKS s
     && String.eqb (Str.lower (Str.take 3 (Str.drop 3 s))) "xml"
  then Some (6 + Str.span_len isspace (Str.drop 6 s))
  else None.

(** The bare opening fence followed by optional blanks. *)
Definition open_bare : Re.matcher := fun s =>
  if Str.startswith BACKTICKS s
  then Some (3 + Str.span_len isspace (Str.drop 3 s))
  else None.

(** Optional blanks and the closing fence at the end of the text; the
    end-of-text anchor also holds just before a final newline. *)
Definition close : Re.matcher := fun s =>
  let n := Str.span_len isspace s in
  let r := Str.drop n s in
  if String.eqb r BACKTICKS || String.eqb r (BACKTICKS +:+ NL)
  then Some (n + 3)
  else None.

End Fence.

(** The three [re.sub] calls between the two [strip] calls. *)
Definition normalize_response (text : string) : string :=
  let text_response := Str.strip text in
  let text_response := Re.sub_anchored Fence.open_xml "" text_response in
  let text_response := Re.sub_anchored Fence.open_bare "" text_response in
  let text_response := Re.sub Fence.close "" text_response in
  Str.strip text_response.

Definition has_preamble (text_response : string) : bool :=
  Str.startswith "<?xml" text_response
  || Str.startswith "<datafile>" text_response.

Definition INVALID_ARTIFACT : string := "invalid_ai_response_start.xml".
Definition FAILED_ARTIFACT : string := "failed_ai_response_games.xml".

Section Gateway.

Context {oracle : Oracle}.

(** The progress indicator thread and the listing of safety ratings are
    presentation only and are left out. *)
Definition call_gemini_api (prompt_text : string) : M (option string) :=
  _ ← count_api_call;
  match generate_content prompt_text with
  | ApiRaised => _ ← print ApiFailed; mret None
  | ApiAnswer text block_reason =>
      match text with
      | Some (String c t) =>
          _ ← print ApiReceived;
          let text_response := normalize_response (String c t) in
          if negb (has_preamble text_response) then
            _ ← print (InvalidStart (Str.take 500 text_response));
            saved ← write_file INVALID_ARTIFACT text_response;
            _ ← print (if saved : bool then SavedInvalid
                       else CannotSaveInvalid);
            mret None
          else mret (Some text_response)
      | _ => _ ← print (ApiDeclined block_reason); mret None
      end
  end.

End Gateway.

(** ** Reconstructor: [reconstruct_filtered_dat] *)

Section Reconstructor.

Context {xml : XmlLibrary}.

Definition usable_name (game_elem : Element) : option string :=
  match get "name" (attrib game_elem) with
  | Some game_name =>
      if negb (String.eqb game_name "") then Some game_name else None
  | None => None
  end.

Definition kept_game_names (ai_root : Element) : list string :=
  omap usable_name (findall_descendants "game" ai_root).

(** [sorted(list(set(kept_game_names)))] *)
Definition unique_kept_names (kept_game_names : list string)
  : list string :=
  merge_sort String.le (elements (list_to_set kept_game_names : gset string)).

(** The header [try] block: the mutated header, or the original text
    with a warning when the header cannot be processed. *)
Definition modified_header_xml (original_header_xml : string) : M string :=
  match fromstring original_header_xml with
  | Some header_element =>
      mret (tostring LXML_AVAILABLE (mutate_header header_element))
  | None => _ ← print HeaderFallback; mret original_header_xml
  end.

Definition game_data_cleaned (original_game_xml : string) : string :=
  Str.strip (Re.sub_anchored Re.xml_decl "" original_game_xml).

(** The loop over the sorted names; the accumulator holds
    [final_dat_parts], [found_count] and [missing_count]. *)
Fixpoint resolve_entries (original_games_data : gmap string string)
  (names : list string) (acc : list string * nat * nat)
  : M (list string * nat * nat) :=
  match names with
  | [] => mret acc
  | name :: rest =>
      let '(final_dat_parts, found_count, missing_count) := acc in
      match original_games_data !! name with
      | Some (String c x) =>
          resolve_entries original_games_data rest
            (final_dat_parts ++ [game_data_cleaned (String c x)],
             found_count + 1, missing_count)
      | _ =>
          _ ← print (MissingGame name);
          resolve_entries original_games_data rest
            (final_dat_parts, found_count, missing_count + 1)
      end
  end.

Definition reconstruct_filtered_dat
  (ai_response_xml original_header_xml : string)
  (original_games_data : gmap string string) : M (option string) :=
  _ ← print (Progress "Ricostruzione DAT filtrato...");
  if String.eqb ai_response_xml "" then
    _ ← print NoResponse; mret None
  else
    let ai_response_clean :=
      Str.strip (Re.sub_anchored Re.xml_decl "" ai_response_xml) in
    match fromstring ai_response_clean with
    | None =>
        _ ← print (AiParseFailed (Str.take 1000 ai_response_xml));
        saved ← write_file FAILED_ARTIFACT ai_response_xml;
        _ ← (if saved : bool then print SavedFailed else mret tt);
        mret None
    | Some ai_root =>
        let root_tag_name := tag ai_root in
        let kept := kept_game_names ai_root in
        modified ← modified_header_xml original_header_xml;
        let final_header_str := Str.strip modified in
        let final_dat_parts :=
          [XML_PREAMBLE; "<" +:+ root_tag_name +:+ ">"; final_header_str]
        in
        let names := unique_kept_names kept in
        _ ← print (RequestedUnique (length names));
        '(final_dat_parts, found_count, missing_count) ←
          resolve_entries original_games_data names
            (final_dat_parts, 0, 0);
        let final_dat_parts :=
          final_dat_parts ++ ["</" +:+ root_tag_name +:+ ">"] in
        _ ← print (Completed found_count missing_count);
        _ ← (if 0 <? missing_count then print MissingHint else mret tt);
        let final_xml_string := Str.join NL final_dat_parts in
        if LXML_AVAILABLE then
          match pretty_final final_xml_string with
          | Some pretty => mret (Some pretty)
          | None => _ ← print PrettyPrintFailed;
                    mret (Some final_xml_string)
          end
        else mret (Some final_xml_string)
    end.

End Reconstructor.

(** ** Output naming: [sanitize_filename] *)

Module Utf8.

Local Open Scope N_scope.

(** [str.encode('utf-8', 'ignore')]: one byte below U+0080, two bytes
    from there to U+00FF.  Nothing is ignored, a Latin-1 text has no
    surrogates. *)
Definition encode_char (c : ascii) : list N :=
  let n := ord c in
  if n <? 128 then [n] else [192 + n / 64; 128 + n mod 64].

Fixpoint encode (s : string) : list N :=
  match s with
  | EmptyString => []
  | String c s' => encode_char c ++ encode s'
  end.

(** [bytes.decode('utf-8', 'ignore')] on byte strings over the bytes
    that [encode] produces: a lead byte that is not followed by a
    continuation byte, and a stray continuation byte, are dropped. *)
Fixpoint decode (bs : list N) : string :=
  match bs with
  | [] => EmptyString
  | b :: rest =>
      if b <? 128 then String (chr b) (decode rest)
      else if (194 <=? b) && (b <=? 195) then
        match rest with
        | b2 :: rest' =>
            if (128 <=? b2) && (b2 <=? 191)
            then String (chr ((b - 192) * 64 + (b2 - 128))) (decode rest')
            else decode rest
        | [] => EmptyString
        end
      else decode rest
  end.

Definition byte_length (s : string) : nat := length (encode s).

End Utf8.

(** [bs[:cutoff]] on a sequence, for any integer [cutoff] *)
Definition slice_to {A} (cutoff : Z) (bs : list A) : list A :=
  if (0 <=? cutoff)%Z then take (Z.to_nat cutoff) bs
  else take (Z.to_nat (Z.of_nat (length bs) + cutoff)) bs.

(** [s.rfind(c)], with -1 for an absent character *)
Fixpoint rfind_char (c : ascii) (s : string) : Z :=
  match s with
  | EmptyString => -1
  | String d s' =>
      let i := rfind_char c s' in
      if (0 <=? i)%Z then (i + 1)%Z
      else if Ascii.eqb d c then 0%Z else (-1)%Z
  end.

(** [os.path.splitext] of [posixpath]: the extension starts at the last
    dot, if that dot comes behind the last separator and behind some
    character of the file name that is not a dot. *)
Definition splitext (p : string) : string * string :=
  let sepIndex := rfind_char "/" p in
  let dotIndex := rfind_char "." p in
  if (sepIndex <? dotIndex)%Z then
    let filenameIndex := Z.to_nat (sepIndex + 1) in
    let dot := Z.to_nat dotIndex in
    if negb (Str.forallb (fun c => Ascii.eqb c ".")
               (Str.take (dot - filenameIndex) (Str.drop filenameIndex p)))
    then (Str.take dot p, Str.drop dot p)
    else (p, "")
  else (p, "").

Definition MAX_LEN_BYTES : Z := 200.

Definition reserved_names : gset string :=
  list_to_set
    ["CON"; "PRN"; "AUX"; "NUL";
     "COM1"; "COM2"; "COM3"; "COM4"; "COM5"; "COM6"; "COM7"; "COM8"; "COM9";
     "LPT1"; "LPT2"; "LPT3"; "LPT4"; "LPT5"; "LPT6"; "LPT7"; "LPT8"; "LPT9"].

(** the class of characters removed as reserved by file systems *)
Definition is_reserved_char (c : ascii) : bool :=
  let n := ord c in
  ((n =? 60) || (n =? 62) || (n =? 58) || (n =? 34) || (n =? 124)
   || (n =? 63) || (n =? 42))%N.

(** the class of control characters, U+0000..U+001F and U+007F *)
Definition is_control_char (c : ascii) : bool :=
  let n := ord c in ((n <=? 31) || (n =? 127))%N.

Definition is_dot_or_space (c : ascii) : bool :=
  Ascii.eqb c "." || Ascii.eqb c " ".

(** The name after the cleaning steps, before the length cap. *)
Definition clean_filename (filename : string) : string :=
  let sanitized :=
    Str.replace_char "\" "-" (Str.replace_char "/" "-" filename) in
  let sanitized := Re.sub (Re.one_of is_reserved_char) "" sanitized in
  let sanitized := Re.sub (Re.one_of is_control_char) "" sanitized in
  let sanitized := Str.strip (Re.sub Re.spaces1 " " sanitized) in
  Str.rstrip_by is_dot_or_space sanitized.

(** The length cap. *)
Definition cap_filename (sanitized : string) : string :=
  if (MAX_LEN_BYTES <? Z.of_nat (Utf8.byte_length sanitized))%Z then
    let '(name, ext) := splitext sanitized in
    let cutoff := (MAX_LEN_BYTES - Z.of_nat (Utf8.byte_length ext) - 1)%Z in
    let name_bytes := Utf8.encode name in
    let name := Utf8.decode (slice_to cutoff name_bytes) in
    name +:+ "~" +:+ ext
  else sanitized.

(** The reserved-name prefix. *)
Definition guard_reserved (sanitized : string) : string :=
  let '(name_part, _) := splitext sanitized in
  if bool_decide (Str.upper name_part ∈ reserved_names)
  then "_" +:+ sanitized else sanitized.

Definition DEFAULT_FILENAME : string := "Filtered_DAT_File.dat".

Definition sanitize_filename (filename : string) : string :=
  let sanitized := clean_filename filename in
  let sanitized := cap_filename sanitized in
  let sanitized := guard_reserved sanitized in
  if String.eqb sanitized "" || String.eqb (Str.lower sanitized) ".dat"
  then DEFAULT_FILENAME else sanitized.

From stdpp Require pretty.

(** ** Pipeline Orchestrator: [process_dat_file] *)

(** [s.endswith(suffix)] *)
Definition str_endswith (suffix s : string) : bool :=
  if String.length suffix <=? String.length s
  then String.eqb
         (Str.drop (String.length s - String.length suffix) s) suffix
  else false.

(** [s.count(sub)] for a non-empty [sub]: occurrences that do not
    overlap, counted from the left. *)
Fixpoint str_count_go (sub : string) (skip : nat) (s : string) : nat :=
  match s with
  | EmptyString => 0
  | String _ s' =>
      match skip with
      | S k => str_count_go sub k s'
      | O =>
          if Str.startswith sub s
          then S (str_count_go sub (String.length sub - 1) s')
          else str_count_go sub 0 s'
      end
  end.

Definition str_count (sub s : string) : nat := str_count_go sub 0 s.

(** A path as the orchestrator uses it: the directory and the file
    name. *)
Record FilePath : Type :=
  mkFilePath { path_parent : string; path_name : string }.

(** [Path(name).stem] of [pathlib]: the name without its last suffix; a
    leading or a trailing dot starts no suffix. *)
Definition path_stem (name : string) : string :=
  let i := rfind_char "." name in
  if ((0 <? i) && (i <? Z.of_nat (String.length name) - 1))%Z
  then Str.take (Z.to_nat i) name
  else name.

(** [filepath.parent / name] *)
Definition path_join (parent name : string) : string :=
  parent +:+ "/" +:+ name.

(** How the first, counting pass over the input can end. *)
Inductive CountError : Type :=
| CountParseError
| CountOtherError.

(** Further parameters of the orchestrator: [iterparse_count] is the
    counting loop over [ET.iterparse] (the number of game elements seen,
    and the error that stopped it, if any), [fromstring_strict] is
    [ET.fromstring] with the default parser ([None] when it raises), and
    [format_prompt maker name threshold compressed] is
    [PROMPT_TEMPLATE.format] with these four named arguments, which are
    all the fields of the template, so that it cannot raise. *)
Class FileTools : Type :=
  {
    iterparse_count : string -> nat * option CountError;
    fromstring_strict : string -> option Element;
    format_prompt : string -> string -> Z -> string -> string
  }.

(** The three-way choice between the count of the first pass and the
    count of the full parse. *)
Definition merged_game_count (game_count_original count_from_parse : nat)
  : nat :=
  if (game_count_original =? 0) && (0 <? count_from_parse)
  then count_from_parse
  else if (count_from_parse =? 0) && (0 <? game_count_original)
       then game_count_original
       else if 0 <? count_from_parse then count_from_parse
            else game_count_original.

Definition output_filename_base (console_maker console_name : string)
  : string :=
  console_maker +:+ " - " +:+ console_name
  +:+ " (GeminiAKNF " +:+ SCRIPT_VERSION +:+ ").dat".

(** The name under which a file is opened. *)
Definition path_key (filepath : FilePath) : string :=
  path_join (path_parent filepath) (path_name filepath).

(** [open(name)] for reading: the content, or [None] when it raises. *)
Definition read_file (name : string) : M (option string) := fun w =>
  (files w !! name, w).

(** What [parse_and_compress_dat] returns for a file that cannot be
    opened: the generic error. *)
Definition UNREADABLE : Catalog :=
  mkCatalog "Sconosciuto" "Errore Parsing Generico" None None None 0.

Section Orchestrator.

Context {xml : XmlLibrary} {oracle : Oracle} {tools : FileTools}.

(** The recount of the games in the final document, for the report. *)
Definition final_game_count (final_dat_content : string) : nat :=
  match fromstring_strict final_dat_content with
  | Some final_tree => length (findall_descendants "game" final_tree)
  | None => str_count "<game name=" final_dat_content
  end.

(** The closing report, without the elapsed time and the markup. *)
Definition saved_report (filepath : FilePath) (game_count : nat)
  (safe_output_filename : string) (final_count : nat) : Event :=
  Progress ("File originale: " +:+ path_name filepath +:+ " ("
            +:+ pretty.pretty game_count +:+ " giochi); File filtrato: "
            +:+ safe_output_filename +:+ " ("
            +:+ pretty.pretty final_count +:+ " giochi)").

(** The input is read from the file store, by the counting pass and by
    the parser; a file that cannot be opened makes both fail with the
    generic error.  The progress lines of the parser are presentation
    only and are left out.  The header text is present whenever the
    store is, so its default is never used. *)
Definition process_dat_file (filepath : FilePath) (score_threshold : Z)
  : M bool :=
  content ← read_file (path_key filepath);
  let '(counted, count_error) :=
    match content with
    | Some content => iterparse_count content
    | None => (0, Some CountOtherError)
    end in
  _ ← match count_error with
      | Some CountParseError =>
          print (Progress "Errore parsing XML iniziale per conteggio")
      | Some CountOtherError =>
          print (Progress "Errore lettura iniziale per conteggio")
      | None => mret tt
      end;
  _ ← print (Progress ("Inizio Elaborazione: " +:+ path_name filepath));
  let catalog :=
    match content with
    | Some content =>
        parse_and_compress_dat (path_stem (path_name filepath)) content
    | None => UNREADABLE
    end in
  let game_count :=
    merged_game_count counted (game_count_original catalog) in
  match original_games_data catalog, compressed_dat_content catalog with
  | Some games_data, Some compressed_dat =>
      let prompt :=
        format_prompt (console_maker catalog) (console_name catalog)
          score_threshold compressed_dat in
      ai_response ← call_gemini_api prompt;
      match ai_response with
      | Some (String c r) =>
          final_dat_content ←
            reconstruct_filtered_dat (String c r)
              (default "" (original_header_xml catalog)) games_data;
          match final_dat_content with
          | Some (String c' r') =>
              let safe_output_filename :=
                sanitize_filename
                  (output_filename_base (console_maker catalog)
                     (console_name catalog)) in
              let output_path :=
                path_join (path_parent filepath) safe_output_filename in
              saved ← write_file output_path (String c' r');
              if saved : bool then
                _ ← print (saved_report filepath game_count
                             safe_output_filename
                             (final_game_count (String c' r')));
                mret true
              else
                _ ← print (Progress ("Errore I/O durante salvataggio "
                                     +:+ safe_output_filename));
                mret false
          | _ =>
              _ ← print (Progress "Elaborazione fallita: ricostruzione");
              mret false
          end
      | _ =>
          _ ← print (Progress "Elaborazione fallita: nessuna risposta");
          mret false
      end
  | _, _ =>
      _ ← print (Progress "Errore critico: impossibile parsare");
      mret false
  end.

(** The loop of the main program over the files to process: the tally
    of successes and failures; a pause is announced between two
    files. *)
Fixpoint process_all (files_to_process : list FilePath)
  (score_threshold : Z) (tally : nat * nat) : M (nat * nat) :=
  match files_to_process with
  | [] => mret tally
  | dat_file :: rest =>
      let '(success_count, fail_count) := tally in
      ok ← process_dat_file dat_file score_threshold;
      let tally' :=
        if ok : bool then (success_count + 1, fail_count)
        else (success_count, fail_count + 1) in
      _ ← match rest with
          | [] => mret tt
          | _ :: _ => print (Progress "Pausa breve prima del prossimo file")
          end;
      process_all rest score_threshold tally'
  end.

End Orchestrator.

(** ** Main program: the choice of the files in batch mode *)

Definition PROVENANCE_MARK : string := "(GeminiAKNF".

Definition DIAGNOSTIC_SUFFIXES : list string :=
  ["_compressed.xml"; "_ai_response.xml"; "failed_ai_response_games.xml";
   "invalid_ai_response_start.xml"; "failed_ai_response.xml"].

(** The condition of the list comprehension over the [*.dat] files. *)
Definition is_candidate (name : string) : bool :=
  negb (Str.contains PROVENANCE_MARK name)
  && negb (existsb (fun suffix => str_endswith suffix name)
             DIAGNOSTIC_SUFFIXES).

(** The files of a batch run, sorted by name. *)
Definition select_candidates (all_dats : list string) : list string :=
  merge_sort String.le (List.filter is_candidate all_dats).

(** ** Predicates used in the statements *)

(** The text does not begin, resp. end, with a character of [p]. *)
Definition starts_clean (p : ascii -> bool) (s : string) : bool :=
  match Str.first s with Some c => negb (p c) | None => true end.

Definition ends_clean (p : ascii -> bool) (s : string) : bool :=
  match Str.last s with Some c => negb (p c) | None => true end.

(** No two blanks follow each other. *)
Fixpoint no_adjacent_blank (s : string) : bool :=
  match s with
  | String c s' =>
      negb (isspace c && negb (starts_clean isspace s'))
      && no_adjacent_blank s'
  | EmptyString => true
  end.

(** The text consists of blanks only. *)
Definition blank (s : string) : Prop := Str.forallb isspace s = true.

(** [w] with further console output. *)
Definition log_events (evs : list Event) (w : World) : World :=
  mkWorld (console w ++ evs) (files w) (fs_writable w) (api_calls w).

Section OutputDocument.

Context {xml : XmlLibrary}.

(** What a selected name contributes to the document. *)
Definition emitted (store : gmap string string) (name : string)
  : option string :=
  match store !! name with
  | Some (String c x) => Some (game_data_cleaned (String c x))
  | _ => None
  end.

Definition unresolved (store : gmap string string) (name : string)
  : bool :=
  match emitted store name with Some _ => false | None => true end.

(** The header line of the document. *)
Definition header_part (original_header_xml : string) : string :=
  Str.strip
    match fromstring original_header_xml with
    | Some header_element =>
        tostring LXML_AVAILABLE (mutate_header header_element)
    | None => original_header_xml
    end.

(** The assembled document, before the closing cosmetic pass. *)
Definition document (root_tag_name header : string)
  (entries : list string) : string :=
  Str.join NL
    ([XML_PREAMBLE; "<" +:+ root_tag_name +:+ ">"; header]
       ++ entries ++ ["</" +:+ root_tag_name +:+ ">"]).

(** The closing cosmetic pass: the pretty-printed document when that
    pass is available and succeeds, the document itself otherwise. *)
Definition finalize (doc : string) : string :=
  if LXML_AVAILABLE then default doc (pretty_final doc) else doc.

(** The cleaned oracle response that is handed to the parser. *)
Definition ai_response_clean (ai_response_xml : string) : string :=
  Str.strip (Re.sub_anchored Re.xml_decl "" ai_response_xml).

(** Console output of a reconstruction whose oracle document parsed. *)
Definition reconstruct_events (original_header_xml : string)
  (store : gmap string string) (names : list string) (doc : string)
  : list Event :=
  [Progress "Ricostruzione DAT filtrato..."]
    ++ match fromstring original_header_xml with
       | Some _ => []
       | None => [HeaderFallback]
       end
    ++ [RequestedUnique (length names)]
    ++ (MissingGame <$> List.filter (unresolved store) names)
    ++ [Completed (length (omap (emitted store) names))
          (length (List.filter (unresolved store) names))]
    ++ (if 0 <? length (List.filter (unresolved store) names)
        then [MissingHint] else [])
    ++ (if LXML_AVAILABLE
        then match pretty_final doc with
             | Some _ => []
             | None => [PrettyPrintFailed]
             end
        else []).

End OutputDocument.

(** ** A sample XML library and sample documents

    Used to run the statements on concrete input.  The serializer follows
    the layout of [xml.etree.ElementTree]: attributes in order, a short tag
    for an element without text and children, the tail behind the closing
    tag.  The parser only knows the sample documents. *)

Module Sample.

Fixpoint escape_cdata (s : string) : string :=
  match s with
  | EmptyString => EmptyString
  | String c s' =>
      (if Ascii.eqb c "&" then "&amp;"
       else if Ascii.eqb c "<" then "&lt;"
       else if Ascii.eqb c ">" then "&gt;"
       else String c "") +:+ escape_cdata s'
  end.

Fixpoint serialize_attrib (attrs : list (string * string)) : string :=
  match attrs with
  | [] => ""
  | (k, v) :: rest =>
      " " +:+ k +:+ "=" +:+ QUOTE +:+ html_escape v +:+ QUOTE
      +:+ serialize_attrib rest
  end.

Fixpoint serialize (e : Element) : string :=
  match e with
  | mkElement t attrs txt cs tl =>
      "<" +:+ t +:+ serialize_attrib attrs
      +:+ match txt, cs with
          | None, [] => " />"
          | _, _ =>
              ">" +:+ escape_cdata (default "" txt)
              +:+ (fix go (l : list Element) : string :=
                     match l with
                     | [] => ""
                     | c :: l' => serialize c +:+ go l'
                     end) cs
              +:+ "</" +:+ t +:+ ">"
          end
      +:+ default "" tl
  end.

Definition leaf (t body : string) : Element :=
  mkElement t [] (Some body) [] None.

Definition game (name body : string) : Element :=
  mkElement "game" [("name", name)] None
    [leaf "description" body] (Some NL).

Definition bare_game (name : string) : Element :=
  mkElement "game" [("name", name)] None [] None.

Definition header : Element :=
  mkElement "header" [] None
    [leaf "name" "Nintendo - Game Boy";
     leaf "description" "Nintendo - Game Boy (Retool)";
     leaf "retool" "2024";
     leaf "clrmamepro" ""]
    (Some NL).

(** Two records are named A; the later one differs. *)
Definition catalog_root : Element :=
  mkElement "datafile" [] None
    [header; game "A" "first A"; game "B" "the B"; game "A" "second A"]
    None.

Definition oracle_root : Element :=
  mkElement "datafile" [] None
    [header; bare_game "B"; bare_game "A"; bare_game "A"; bare_game "C"]
    None.

Definition library : XmlLibrary :=
  {|
    LXML_AVAILABLE := false;
    fromstring := fun s =>
      if Str.startswith "<datafile>" s then Some oracle_root
      else if Str.startswith "<header>" s then Some header
      else None;
    parse := fun _ => Parsed catalog_root;
    tostring := fun _ => serialize;
    pretty_final := fun _ => None
  |}.

Definition world : World := mkWorld [] ∅ true 0.

Definition store : gmap string string :=
  (@collect_games library (findall_descendants "game" catalog_root)).1.

End Sample.

(** ** Header predicates *)

Definition has_tag (t : string) (e : Element) : bool := String.eqb (tag e) t.

(** The children with a given tag, and their number. *)
Definition children_tagged (t : string) (cs : list Element) : list Element :=
  List.filter (has_tag t) cs.

Definition count_tag (t : string) (cs : list Element) : nat :=
  length (children_tagged t cs).


(** ** Sample oracles *)

(** An answer wrapped in a code fence, with text that is no document. *)
Definition fenced_chatter : string :=
  "```xml" +:+ NL +:+ "I cannot filter this file." +:+ NL +:+ "```".

Definition chatty_oracle : Oracle :=
  {| generate_content := fun _ => ApiAnswer (Some fenced_chatter) None |}.

(** ** File-name predicates *)

(** Neither reserved, nor a path separator, nor a control character. *)
Definition allowed_char (c : ascii) : bool :=
  negb (is_reserved_char c) && negb (Ascii.eqb c "/")
  && negb (Ascii.eqb c "\") && negb (is_control_char c).

(** The stem of a file name is a reserved device name. *)
Definition reserved_stem (s : string) : Prop :=
  Str.upper (splitext s).1 ∈ reserved_names.

(** An over-long name that loses its excess to the removal of illegal
    characters, and one with an over-long extension. *)
Definition long_illegal_name : string := Str.repeat "a" 198 +:+ ":*?".
Definition long_extension_name : string := "a." +:+ Str.repeat "x" 300.

Definition not_char (c : ascii) : ascii -> bool :=
  fun d => negb (Ascii.eqb d c).

(** A capital letter or a digit, the alphabet of the reserved names. *)
Definition is_upper_alnum (c : ascii) : bool :=
  let n := ord c in
  (((65 <=? n) && (n <=? 90)) || ((48 <=? n) && (n <=? 57)))%N.

(** Not one of the characters the sanitizer itself adds or splits at. *)
Definition plain_char (c : ascii) : bool :=
  not_char "~" c && not_char "." c && not_char "_" c.

(** ** Further predicates *)

(** The characters that delimit markup or an attribute value. *)
Definition is_markup_char (c : ascii) : bool :=
  Ascii.eqb c "<" || Ascii.eqb c ">" || Ascii.eqb c (chr 34)
  || Ascii.eqb c "'".

(** The compressed identifier of a name. *)
Definition compressed_tag (game_name : string) : string :=
  "<game name=" +:+ QUOTE +:+ escape_xml_attribute (Some game_name)
  +:+ QUOTE +:+ "/>".

(** What [html.escape] writes for one character. *)
Definition escape_piece (c : ascii) : string :=
  if Ascii.eqb c "&" then "&amp;"
  else if Ascii.eqb c "<" then "&lt;"
  else if Ascii.eqb c ">" then "&gt;"
  else if Ascii.eqb c (chr 34) then "&quot;"
  else if Ascii.eqb c "'" then "&#x27;"
  else String c "".

(** An oracle that answers with a bare document. *)
Definition bare_answer : string :=
  "<datafile><game name=" +:+ QUOTE +:+ "B" +:+ QUOTE +:+ "/></datafile>".

Definition plain_oracle : Oracle :=
  {| generate_content := fun _ => ApiAnswer (Some bare_answer) None |}.

(** A header child that the mutation has no business with. *)
Definition is_other_child (e : Element) : bool :=
  negb (has_tag "description" e) && negb (has_tag "geminiaknf" e).

(** A character that is not a blank, or is the plain space. *)
Definition plain_blank (c : ascii) : bool :=
  negb (isspace c) || Ascii.eqb c " ".

(** The shape of a name that the cleaning steps leave alone: allowed
    characters only, single plain spaces as the only blanks, no blank in
    front, no dot or space at the end. *)
Definition tidy (s : string) : bool :=
  Str.forallb allowed_char s && Str.forallb plain_blank s
  && no_adjacent_blank s && starts_clean isspace s
  && ends_clean is_dot_or_space s.

(** The end of every output name before sanitization, from the
    provenance mark on. *)
Definition MARK_TAIL : string :=
  "(GeminiAKNF " +:+ SCRIPT_VERSION +:+ ").dat".

(** Between two worlds only the two diagnostic artifacts may differ. *)
Definition only_artifacts (w w' : World) : Prop :=
  fs_writable w' = fs_writable w
  /\ forall k, k <> INVALID_ARTIFACT -> k <> FAILED_ARTIFACT ->
       files w' !! k = files w !! k.

(** Where a run over an input with this content saves its result. *)
Definition expected_output_path {xml : XmlLibrary} (filepath : FilePath)
  (content : string) : string :=
  let catalog :=
    parse_and_compress_dat (path_stem (path_name filepath)) content in
  path_join (path_parent filepath)
    (sanitize_filename
       (output_filename_base (console_maker catalog) (console_name catalog))).

(** The catalog that a run builds for its input. *)
Definition catalog_of {xml : XmlLibrary} (filepath : FilePath) (w : World)
  : Catalog :=
  match files w !! path_key filepath with
  | Some content =>
      parse_and_compress_dat (path_stem (path_name filepath)) content
  | None => UNREADABLE
  end.

(** A sample instance of the orchestrator's further parameters, and a
    sample XML library that refuses an input without markup. *)
Definition sample_tools : FileTools :=
  {|
    iterparse_count := fun content => (str_count "<game " content, None);
    fromstring_strict := @fromstring Sample.library;
    format_prompt := fun maker name _ compressed =>
      maker +:+ " / " +:+ name +:+ NL +:+ compressed
  |}.

Definition strict_library : XmlLibrary :=
  {|
    LXML_AVAILABLE := false;
    fromstring := @fromstring Sample.library;
    parse := fun content =>
      if Str.startswith "<" content then Parsed Sample.catalog_root
      else ParseError;
    tostring := @tostring Sample.library;
    pretty_final := @pretty_final Sample.library
  |}.

Definition sample_input : FilePath :=
  mkFilePath "roms" "Nintendo - Game Boy.dat".

(** A world that holds the sample input. *)
Definition input_world (content : string) : World :=
  mkWorld [] {[ path_key sample_input := content ]} true 0.

(** The compressed document of the sample input. *)
Definition sample_compressed : string :=
  default ""
    (compressed_dat_content
       (@parse_and_compress_dat Sample.library
          (path_stem (path_name sample_input)) "<datafile/>")).

(** * Properties *)

(** ** Strings *)

Lemma str_app_cons c s t : String c s +:+ t = String c (s +:+ t).
Proof. reflexivity. Qed.

Lemma str_app_nil_r s : s +:+ "" = s.
Proof. induction s as [|c s IH]; [done|]. by rewrite str_app_cons, IH. Qed.

Lemma str_app_assoc s t u : (s +:+ t) +:+ u = s +:+ t +:+ u.
Proof.
  induction s as [|c s IH]; [done|]. by rewrite !str_app_cons, IH.
Qed.

Lemma str_length_app s t :
  String.length (s +:+ t) = String.length s + String.length t.
Proof.
  induction s as [|c s IH]; [done|]. rewrite str_app_cons. simpl. lia.
Qed.

Lemma str_app_eq_nil s t : s +:+ t = "" -> s = "" /\ t = "".
Proof. destruct s; [done|]. rewrite str_app_cons. discriminate. Qed.

(** Two decompositions of one string with prefixes of the same length
    agree. *)
Lemma str_app_inj_length a b a' b' :
  a +:+ b = a' +:+ b' -> String.length a = String.length a' ->
  a = a' /\ b = b'.
Proof.
  revert a'. induction a as [|c a IH]; intros [|c' a'] H Hl;
    simpl in Hl; try discriminate.
  - done.
  - rewrite !str_app_cons in H. injection H as -> H.
    destruct (IH a' H) as [-> ->]; [lia|done].
Qed.

Lemma str_forallb_app p s t :
  Str.forallb p (s +:+ t) = Str.forallb p s && Str.forallb p t.
Proof.
  induction s as [|c s IH]; [done|].
  rewrite str_app_cons. simpl. rewrite IH. by rewrite andb_assoc.
Qed.

Lemma str_take_drop s n : Str.take n s +:+ Str.drop n s = s.
Proof.
  revert s. induction n as [|n IH]; intros [|c s]; try done.
  simpl. by rewrite str_app_cons, IH.
Qed.

Lemma str_drop_length_le s n : String.length (Str.drop n s) <= String.length s.
Proof.
  revert s. induction n as [|n IH]; intros [|c s]; simpl; try lia.
  specialize (IH s). lia.
Qed.

Lemma str_drop_app_length s t : Str.drop (String.length s) (s +:+ t) = t.
Proof. induction s as [|c s IH]; [by destruct t|]. done. Qed.

(** *** [startswith], [contains], [split_once] *)

Lemma startswith_spec p s :
  Str.startswith p s = true <-> exists t, s = p +:+ t.
Proof.
  revert s. induction p as [|a p IH]; intros s; simpl.
  - split; eauto.
  - destruct s as [|b s].
    + split; [done|]. intros [t Ht]. discriminate.
    + rewrite andb_true_iff, Ascii.eqb_eq, IH. split.
      * intros [-> [t ->]]. by exists t.
      * intros [t Ht]. rewrite str_app_cons in Ht.
        injection Ht as -> ->. eauto.
Qed.

Lemma contains_spec sub s :
  Str.contains sub s = true <-> exists pre post, s = pre +:+ sub +:+ post.
Proof.
  induction s as [|c s IH].
  - simpl. rewrite orb_false_r, startswith_spec. split.
    + intros [t Ht]. by exists "", t.
    + intros (pre & post & H). symmetry in H.
      apply str_app_eq_nil in H as [-> H]. exists post. done.
  - cbn [Str.contains]. rewrite orb_true_iff, startswith_spec, IH. split.
    + intros [[t Ht]|(pre & post & ->)].
      * by exists "", t.
      * by exists (String c pre), post.
    + intros ([|d pre] & post & H).
      * left. by exists post.
      * right. rewrite str_app_cons in H. injection H as -> ->. eauto.
Qed.

Lemma split_once_Some sep s a b :
  Str.split_once sep s = Some (a, b) ->
  s = a +:+ sep +:+ b
  /\ forall a' b', s = a' +:+ sep +:+ b' ->
       String.length a <= String.length a'.
Proof.
  revert a. induction s as [|c s IH]; intros a.
  - cbn [Str.split_once]. destruct (Str.startswith sep "") eqn:E; [|done].
    intros [= <- <-]. apply startswith_spec in E as [t Ht].
    symmetry in Ht. apply str_app_eq_nil in Ht as [-> ->].
    split; [done|]. simpl. lia.
  - cbn [Str.split_once]. destruct (Str.startswith sep (String c s)) eqn:E.
    + intros [= <- <-]. apply startswith_spec in E as [t Ht].
      rewrite Ht, str_drop_app_length. split; [done|]. simpl. lia.
    + destruct (Str.split_once sep s) as [[a0 b0]|] eqn:E2; [|done].
      intros [= <- <-]. destruct (IH a0 eq_refl) as [-> Hmin].
      split; [done|]. intros [|c' a'] b' H.
      * assert (Str.startswith sep (String c (a0 +:+ sep +:+ b0)) = true)
          as E3 by (apply startswith_spec; eauto).
        congruence.
      * rewrite str_app_cons in H. injection H as -> H.
        simpl. specialize (Hmin a' b' H). lia.
Qed.

Lemma split_once_None sep s :
  Str.split_once sep s = None -> forall a b, s <> a +:+ sep +:+ b.
Proof.
  induction s as [|c s IH]; cbn [Str.split_once].
  - destruct (Str.startswith sep "") eqn:E; [done|]. intros _ a b H.
    symmetry in H. apply str_app_eq_nil in H as [-> H].
    assert (Str.startswith sep "" = true); [|congruence].
    apply startswith_spec. exists b. done.
  - destruct (Str.startswith sep (String c s)) eqn:E; [done|].
    destruct (Str.split_once sep s) as [[a0 b0]|] eqn:E2; [done|].
    intros _ [|c' a] b H.
    + assert (Str.startswith sep (String c s) = true); [|congruence].
      apply startswith_spec. exists b. done.
    + rewrite str_app_cons in H. injection H as -> H. by eapply IH.
Qed.

(** *** Trimming *)

Lemma lstrip_by_split p s :
  exists l, s = l +:+ Str.lstrip_by p s /\ Str.forallb p l = true.
Proof.
  induction s as [|c s (l & IH & Hl)]; [by exists ""|].
  simpl. destruct (p c) eqn:E.
  - exists (String c l). rewrite str_app_cons, <- IH. simpl.
    by rewrite E, Hl.
  - by exists "".
Qed.

Lemma rstrip_by_split p s :
  exists r, s = Str.rstrip_by p s +:+ r /\ Str.forallb p r = true.
Proof.
  induction s as [|c s (r & IH & Hr)]; [by exists ""|].
  simpl. destruct (Str.rstrip_by p s) as [|d t] eqn:E.
  - change ("" +:+ r) with r in IH. subst r. destruct (p c) eqn:Ec.
    + exists (String c s). simpl. by rewrite Ec, Hr.
    + exists s. done.
  - exists r. rewrite !str_app_cons. by rewrite IH at 1.
Qed.

(** [strip] only removes blanks around the text. *)
Lemma strip_split s :
  exists l r, s = l +:+ Str.strip s +:+ r
    /\ Str.forallb isspace l = true /\ Str.forallb isspace r = true.
Proof.
  destruct (lstrip_by_split isspace s) as (l & Hs & Hl).
  destruct (rstrip_by_split isspace (Str.lstrip_by isspace s))
    as (r & Hm & Hr).
  exists l, r. unfold Str.strip. by rewrite <- Hm.
Qed.

Lemma lstrip_by_id p s : starts_clean p s = true -> Str.lstrip_by p s = s.
Proof.
  destruct s as [|c s]; [done|]. unfold starts_clean. simpl.
  by destruct (p c).
Qed.

Lemma rstrip_by_id p s : ends_clean p s = true -> Str.rstrip_by p s = s.
Proof.
  unfold ends_clean. induction s as [|c s IH]; [done|].
  destruct s as [|d s].
  - simpl. by destruct (p c).
  - intros H. change (Str.last (String c (String d s)))
      with (Str.last (String d s)) in H.
    cbn [Str.rstrip_by]. cbn [Str.rstrip_by] in IH. by rewrite (IH H).
Qed.

Lemma strip_id s :
  starts_clean isspace s = true -> ends_clean isspace s = true ->
  Str.strip s = s.
Proof.
  intros H1 H2. unfold Str.strip. rewrite (lstrip_by_id _ _ H1).
  by apply rstrip_by_id.
Qed.

Lemma lstrip_by_starts_clean p s : starts_clean p (Str.lstrip_by p s) = true.
Proof.
  induction s as [|c s IH]; [done|]. simpl. destruct (p c) eqn:E; [done|].
  unfold starts_clean. simpl. by rewrite E.
Qed.

Lemma rstrip_by_ends_clean p s : ends_clean p (Str.rstrip_by p s) = true.
Proof.
  unfold ends_clean. induction s as [|c s IH]; [done|].
  simpl. destruct (Str.rstrip_by p s) as [|d t] eqn:E.
  - destruct (p c) eqn:Ec; [done|]. simpl. by rewrite Ec.
  - exact IH.
Qed.

Lemma rstrip_by_starts_clean p s :
  starts_clean p s = true -> starts_clean p (Str.rstrip_by p s) = true.
Proof.
  destruct s as [|c s]; [done|]. unfold starts_clean. simpl.
  destruct (Str.rstrip_by p s); [|done].
  destruct (p c) eqn:E; [done|]. simpl. by rewrite E.
Qed.

Lemma strip_starts_clean s : starts_clean isspace (Str.strip s) = true.
Proof. apply rstrip_by_starts_clean, lstrip_by_starts_clean. Qed.

Lemma strip_ends_clean s : ends_clean isspace (Str.strip s) = true.
Proof. apply rstrip_by_ends_clean. Qed.

Lemma str_last_app s t : t <> "" -> Str.last (s +:+ t) = Str.last t.
Proof.
  intros Ht. induction s as [|c s IH]; [done|].
  rewrite str_app_cons. destruct (s +:+ t) eqn:E.
  - apply str_app_eq_nil in E as [_ ?]. done.
  - exact IH.
Qed.

(** ** Regular-expression substitution *)

Lemma sub_go_drop m r k s : Re.sub_go m r k s = Re.sub m r (Str.drop k s).
Proof.
  revert k. induction s as [|c s IH]; intros [|k]; try done.
  simpl. apply IH.
Qed.

Lemma sub_cons m r c s :
  Re.sub m r (String c s) =
  match m (String c s) with
  | Some (S n) => r +:+ Re.sub m r (Str.drop n s)
  | _ => String c (Re.sub m r s)
  end.
Proof.
  unfold Re.sub at 1. cbn [Re.sub_go].
  destruct (m (String c s)) as [[|n]|]; try done.
  by rewrite sub_go_drop.
Qed.

Lemma span_len_drop_clean p s :
  starts_clean p (Str.drop (Str.span_len p s) s) = true.
Proof.
  induction s as [|c s IH]; [done|]. simpl. destruct (p c) eqn:E; [done|].
  unfold starts_clean. simpl. by rewrite E.
Qed.

Lemma span_len_0_clean p s : Str.span_len p s = 0 -> starts_clean p s = true.
Proof.
  intros H. pose proof (span_len_drop_clean p s) as H'. by rewrite H in H'.
Qed.

(** Collapsing runs of blanks leaves no two blanks side by side, and
    does not create a leading blank. *)
Lemma collapse_no_adjacent_blank s :
  no_adjacent_blank (Re.sub Re.spaces2 " " s) = true
  /\ (starts_clean isspace s = true ->
      starts_clean isspace (Re.sub Re.spaces2 " " s) = true).
Proof.
  remember (String.length s) as n eqn:Hn.
  assert (String.length s <= n) as Hle by lia. clear Hn.
  revert s Hle. induction n as [|n IH]; intros [|c s] Hle; try done.
  { simpl in Hle. lia. }
  simpl in Hle. rewrite sub_cons.
  assert (Re.spaces2 (String c s) =
          if isspace c
          then match Str.span_len isspace s with
               | 0 => None
               | S k => Some (S (S k))
               end
          else None) as ->.
  { unfold Re.spaces2. cbn [Str.span_len]. destruct (isspace c); [|done].
    by destruct (Str.span_len isspace s). }
  destruct (isspace c) eqn:Ec.
  - destruct (Str.span_len isspace s) as [|k] eqn:Ek.
    + destruct (IH s ltac:(lia)) as [H1 H2].
      cbn [no_adjacent_blank]. rewrite H1, Ec.
      rewrite (H2 (span_len_0_clean _ _ Ek)). split; [done|].
      unfold starts_clean at 1. simpl. by rewrite Ec.
    + 
      pose proof (span_len_drop_clean isspace s) as Hc. rewrite Ek in Hc.
      pose proof (str_drop_length_le s (S k)).
      destruct (IH (Str.drop (S k) s) ltac:(lia)) as [H1 H2].
      split.
      2:{ intros Hx. unfold starts_clean in Hx. simpl in Hx.
          by rewrite Ec in Hx. }
      change (" " +:+ ?x) with (String " " x).
      cbn [no_adjacent_blank]. by rewrite H1, (H2 Hc).
  - simpl. destruct (IH s ltac:(lia)) as [H1 H2].
    cbn [no_adjacent_blank]. rewrite H1, Ec. split; [done|].
    intros _. unfold starts_clean. simpl. by rewrite Ec.
Qed.

Lemma no_adjacent_blank_app_r s t :
  no_adjacent_blank (s +:+ t) = true -> no_adjacent_blank t = true.
Proof.
  induction s as [|c s IH]; [done|]. rewrite str_app_cons.
  cbn [no_adjacent_blank]. rewrite andb_true_iff. intros [_ H]. auto.
Qed.

Lemma starts_clean_app p s t :
  s <> "" -> starts_clean p (s +:+ t) = starts_clean p s.
Proof. by destruct s. Qed.

Lemma no_adjacent_blank_app_l s t :
  no_adjacent_blank (s +:+ t) = true -> no_adjacent_blank s = true.
Proof.
  induction s as [|c s IH]; [done|]. rewrite str_app_cons.
  cbn [no_adjacent_blank]. rewrite !andb_true_iff. intros [H1 H2].
  split; [|auto]. destruct s as [|d s]; [|done].
  unfold starts_clean at 1. simpl. by rewrite andb_false_r.
Qed.

(** Around a blank inside a text without adjacent blanks, the neighbours
    are not blank. *)
Lemma no_adjacent_blank_before s c t :
  no_adjacent_blank (s +:+ String c t) = true -> isspace c = true ->
  ends_clean isspace s = true.
Proof.
  intros H Hc. induction s as [|d s IH]; [done|].
  rewrite str_app_cons in H. cbn [no_adjacent_blank] in H.
  apply andb_true_iff in H as [H1 H2]. destruct s as [|e s].
  - unfold ends_clean. simpl.
    change ("" +:+ String c t) with (String c t) in H1.
    unfold starts_clean in H1. simpl in H1. rewrite Hc in H1.
    simpl in H1. by rewrite andb_true_r in H1.
  - apply IH in H2. exact H2.
Qed.

Lemma no_adjacent_blank_after c t :
  no_adjacent_blank (String c t) = true -> isspace c = true ->
  starts_clean isspace t = true.
Proof.
  cbn [no_adjacent_blank]. intros H Hc. rewrite Hc in H.
  apply andb_true_iff in H as [H _]. simpl in H.
  by apply negb_true_iff, negb_false_iff in H.
Qed.

(** ** Console details *)

Lemma cleaned_name_shape raw :
  no_adjacent_blank (cleaned_name raw) = true
  /\ starts_clean isspace (cleaned_name raw) = true
  /\ ends_clean isspace (cleaned_name raw) = true.
Proof.
  unfold cleaned_name. split; [|split].
  - set (t := Re.sub Re.spaces2 " " _).
    assert (no_adjacent_blank t = true) as Ht
      by apply collapse_no_adjacent_blank.
    destruct (lstrip_by_split isspace t) as (l & Hs & _).
    destruct (rstrip_by_split isspace (Str.lstrip_by isspace t))
      as (r & Hm & _).
    rewrite Hs in Ht. apply no_adjacent_blank_app_r in Ht.
    rewrite Hm in Ht. by apply no_adjacent_blank_app_l in Ht.
  - apply strip_starts_clean.
  - apply strip_ends_clean.
Qed.

(** Both sides of the separator are already trimmed, and the left side is
    not empty: the [strip] calls on the parts and the empty-maker test of
    the source never change anything. *)
Lemma separator_parts_trimmed raw a b :
  cleaned_name raw = a +:+ " - " +:+ b ->
  a <> "" /\ Str.strip a = a /\ Str.strip b = b.
Proof.
  intros H. destruct (cleaned_name_shape raw) as (Hn & Hs & He).
  rewrite H in Hn, Hs, He.
  assert (a <> "") as Ha.
  { intros ->. by vm_compute in Hs. }
  split; [done|]. split.
  - apply strip_id.
    + by rewrite starts_clean_app in Hs.
    + change (" - " +:+ b) with (String " " ("- " +:+ b)) in Hn.
      by apply no_adjacent_blank_before in Hn.
  - apply strip_id.
    + change (a +:+ " - " +:+ b)
        with (a +:+ String " " (String "-" (String " " b))) in Hn.
      apply no_adjacent_blank_app_r in Hn.
      cbn [no_adjacent_blank] in Hn.
      apply andb_true_iff in Hn as [_ Hn].
      apply andb_true_iff in Hn as [_ Hn].
      by apply no_adjacent_blank_after in Hn.
    + destruct b as [|c b]; [done|].
      unfold ends_clean in He |- *.
      rewrite <- str_app_assoc, str_last_app in He; done.
Qed.

Example extract_nintendo :
  extract_console_details (Some "Nintendo - Game Boy")
  = ("Nintendo", "Game Boy").
Proof. reflexivity. Qed.

Example extract_game_boy_color :
  extract_console_details (Some "Game Boy (Color)")
  = (UNKNOWN_MAKER, "Game Boy").
Proof. reflexivity. Qed.

(** C4: the raw name is first cleaned (parenthetical qualifiers replaced,
    runs of blanks collapsed, trimmed); if the cleaned text contains the
    separator " - ", the part before its leftmost occurrence is the maker
    and the part after it is the platform name; if it does not, the maker
    is the unknown-maker sentinel and the whole cleaned text is the
    platform name.  "Nintendo - Game Boy" gives ("Nintendo", "Game Boy")
    and "Game Boy (Color)" gives (sentinel, "Game Boy"). *)
Theorem extract_console_details_split (raw : string) :
  (forall before after,
      cleaned_name raw = before +:+ " - " +:+ after ->
      (forall b' a', cleaned_name raw = b' +:+ " - " +:+ a' ->
                     String.length before <= String.length b') ->
      extract_console_details (Some raw) = (before, after))
  /\ ((forall before after,
          cleaned_name raw <> before +:+ " - " +:+ after) ->
      extract_console_details (Some raw) = (UNKNOWN_MAKER, cleaned_name raw))
  /\ extract_console_details (Some "Nintendo - Game Boy")
     = ("Nintendo", "Game Boy")
  /\ extract_console_details (Some "Game Boy (Color)")
     = (UNKNOWN_MAKER, "Game Boy").
Proof.
  split; [|split; [|split; reflexivity]].
  - intros before after Hdec Hmin. unfold extract_console_details.
    destruct (Str.split_once " - " (cleaned_name raw)) as [[a b]|] eqn:E.
    + apply split_once_Some in E as [Hab Hleft].
      destruct (str_app_inj_length a (" - " +:+ b) before (" - " +:+ after))
        as [-> Hb].
      { by rewrite <- Hab, <- Hdec. }
      { pose proof (Hleft _ _ Hdec). pose proof (Hmin _ _ Hab). lia. }
      apply (inj (String.app " - ")) in Hb as ->.
      destruct (separator_parts_trimmed raw before after Hdec)
        as (Hne & -> & ->).
      destruct before; [done|]. done.
    + exfalso. eapply split_once_None; eauto.
  - intros Hno. unfold extract_console_details.
    destruct (Str.split_once " - " (cleaned_name raw)) as [[a b]|] eqn:E;
      [|done].
    apply split_once_Some in E as [Hab _]. by apply Hno in Hab.
Qed.

Lemma extract_console_details_split_witness :
  extract_console_details (Some "Sega - Mega Drive (USA)")
  = ("Sega", "Mega Drive").
Proof.
  apply (proj1 (extract_console_details_split "Sega - Mega Drive (USA)")).
  - reflexivity.
  - intros b' a' H. vm_compute in H.
    destruct b' as [|c0 [|c1 [|c2 [|c3 b']]]]; simpl; try lia;
      vm_compute in H; discriminate.
Defined.

(** ** Effects *)

Lemma log_events_nil w : log_events [] w = w.
Proof. destruct w. unfold log_events. simpl. by rewrite app_nil_r. Qed.

Lemma log_events_app a b w :
  log_events b (log_events a w) = log_events (a ++ b) w.
Proof. unfold log_events. simpl. by rewrite app_assoc. Qed.

Lemma print_log e w : print e w = (tt, log_events [e] w).
Proof. reflexivity. Qed.

Lemma log_events_console evs w : console (log_events evs w) = console w ++ evs.
Proof. reflexivity. Qed.

(** ** Reconstructor *)

Section ReconstructorFacts.

Context {xml : XmlLibrary}.

Lemma resolve_entries_found store n names parts found missing w p :
  emitted store n = Some p ->
  resolve_entries store (n :: names) (parts, found, missing) w =
  resolve_entries store names (parts ++ [p], found + 1, missing) w.
Proof.
  unfold emitted. cbn [resolve_entries].
  destruct (store !! n) as [[|c x]|]; try done. by intros [= <-].
Qed.

Lemma resolve_entries_missing store n names parts found missing w :
  emitted store n = None ->
  resolve_entries store (n :: names) (parts, found, missing) w =
  resolve_entries store names (parts, found, missing + 1)
    (log_events [MissingGame n] w).
Proof.
  unfold emitted. cbn [resolve_entries].
  destruct (store !! n) as [[|c x]|]; done.
Qed.

(** The loop appends, in order, what each name contributes, counts the
    names that contribute and those that do not, and reports the
    latter. *)
Lemma resolve_entries_spec store names parts found missing w :
  resolve_entries store names (parts, found, missing) w =
  ((parts ++ omap (emitted store) names,
    found + length (omap (emitted store) names),
    missing + length (List.filter (unresolved store) names)),
   log_events (MissingGame <$> List.filter (unresolved store) names) w).
Proof.
  revert parts found missing w.
  induction names as [|n names IH]; intros parts found missing w.
  - simpl. rewrite app_nil_r, log_events_nil, !Nat.add_0_r. done.
  - cbn [omap list_omap List.filter].
    assert (unresolved store n =
            match emitted store n with Some _ => false | None => true end)
      as -> by done.
    destruct (emitted store n) as [p|] eqn:E.
    + rewrite (resolve_entries_found store n names parts found missing
                 w p E), IH.
      rewrite <- app_assoc. cbn [length app].
      by rewrite <- Nat.add_assoc.
    + rewrite (resolve_entries_missing store n names parts found missing
                 w E), IH.
      rewrite log_events_app. cbn [length fmap list_fmap app].
      by rewrite <- Nat.add_assoc.
Qed.

(** The outcome of a reconstruction whose oracle document parsed. *)
Lemma reconstruct_parsed ai hdr store ai_root w :
  ai <> "" ->
  fromstring (ai_response_clean ai) = Some ai_root ->
  let names := unique_kept_names (kept_game_names ai_root) in
  let doc :=
    document (tag ai_root) (header_part hdr)
      (omap (emitted store) names) in
  reconstruct_filtered_dat ai hdr store w =
  (Some (finalize doc),
   log_events (reconstruct_events hdr store names doc) w).
Proof.
  intros Hne Hparse names doc. unfold reconstruct_filtered_dat.
  unfold mbind at 1. unfold M_bind at 1. rewrite print_log.
  destruct (String.eqb_spec ai "") as [->|_]; [done|].
  fold (ai_response_clean ai). rewrite Hparse.
  unfold mbind at 1. unfold M_bind at 1.
  assert (modified_header_xml hdr
            (log_events [Progress "Ricostruzione DAT filtrato..."] w)
          = (match fromstring hdr with
             | Some h => tostring LXML_AVAILABLE (mutate_header h)
             | None => hdr
             end,
             log_events ([Progress "Ricostruzione DAT filtrato..."]
               ++ match fromstring hdr with
                  | Some _ => []
                  | None => [HeaderFallback]
                  end) w))
    as ->.
  { unfold modified_header_xml. destruct (fromstring hdr).
    - by rewrite app_nil_r.
    - unfold mbind, M_bind. by rewrite print_log, log_events_app. }
  fold (header_part hdr). fold names.
  unfold mbind at 1. unfold M_bind at 1. rewrite print_log, log_events_app.
  unfold mbind at 1. unfold M_bind at 1.
  rewrite resolve_entries_spec, log_events_app. cbn [Nat.add].
  assert (Str.join NL
            (([XML_PREAMBLE; "<" +:+ tag ai_root +:+ ">"; header_part hdr]
                ++ omap (emitted store) names)
               ++ ["</" +:+ tag ai_root +:+ ">"]) = doc) as Hdoc.
  { unfold doc, document. by rewrite <- app_assoc. }
  rewrite !Hdoc.
  unfold mbind at 1. unfold M_bind at 1. rewrite print_log, log_events_app.
  unfold mbind at 1. unfold M_bind at 1.
  unfold reconstruct_events, finalize. fold names.
  assert (forall evs,
    (if LXML_AVAILABLE
     then match pretty_final doc with
          | Some pretty => mret (Some pretty)
          | None => _ ← print PrettyPrintFailed; mret (Some doc)
          end
     else mret (Some doc)) (log_events evs w)
    = (Some (if LXML_AVAILABLE then default doc (pretty_final doc)
             else doc),
       log_events
         (evs ++ (if LXML_AVAILABLE
                  then match pretty_final doc with
                       | Some _ => []
                       | None => [PrettyPrintFailed]
                       end
                  else [])) w)) as Hfinal.
  { intros evs. destruct LXML_AVAILABLE; [destruct (pretty_final doc)|].
    - by rewrite app_nil_r.
    - unfold mbind, M_bind. by rewrite print_log, log_events_app.
    - by rewrite app_nil_r. }
  destruct (0 <? length (List.filter (unresolved store) names)).
  - rewrite print_log, log_events_app, Hfinal. by rewrite <- !app_assoc.
  - unfold mret at 1. unfold M_ret at 1. rewrite Hfinal.
    by rewrite <- !app_assoc.
Qed.

End ReconstructorFacts.

(** ** Catalog Store *)

Section StoreFacts.

Context {xml : XmlLibrary}.

Lemma usable_name_spec e n :
  usable_name e = Some n <-> get "name" (attrib e) = Some n /\ n <> "".
Proof.
  unfold usable_name. destruct (get "name" (attrib e)) as [m|].
  - destruct (String.eqb_spec m "") as [->|Hm]; simpl.
    + split; [done|]. by intros [[= <-] ?].
    + split; [by intros [= <-]|]. by intros [[= <-] _].
  - split; [done|]. by intros [? _].
Qed.

Lemma store_game_usable acc e :
  store_game acc e =
  match usable_name e with
  | Some n =>
      (<[n := tostring false e]> acc.1,
       acc.2 ++ ["<game name=" +:+ QUOTE
                 +:+ escape_xml_attribute (Some n) +:+ QUOTE +:+ "/>"])
  | None => acc
  end.
Proof.
  destruct acc as [store tags]. unfold store_game, usable_name.
  destruct (get "name" (attrib e)) as [m|]; [|done].
  by destruct (String.eqb m "").
Qed.

Lemma fold_store_skip l acc n :
  (forall e, e ∈ l -> usable_name e <> Some n) ->
  (fold_left store_game l acc).1 !! n = acc.1 !! n.
Proof.
  revert acc. induction l as [|e l IH]; intros acc Hl; [done|].
  simpl. rewrite IH.
  - rewrite store_game_usable.
    destruct (usable_name e) as [m|] eqn:E; [|done].
    simpl. apply lookup_insert_ne. intros ->.
    by apply (Hl e); [left|].
  - intros e' He'. apply Hl. by right.
Qed.

(** The store holds, for a name, the serialization of the last record
    that carries it. *)
Lemma fold_store_last l e after acc n :
  usable_name e = Some n ->
  (forall e', e' ∈ after -> usable_name e' <> Some n) ->
  (fold_left store_game (l ++ e :: after) acc).1 !! n
  = Some (tostring false e).
Proof.
  intros He Hafter. rewrite fold_left_app. simpl.
  rewrite fold_store_skip by done.
  rewrite store_game_usable, He. simpl. apply lookup_insert_eq.
Qed.

(** Every value of the store is the serialization of a record with that
    name. *)
Lemma fold_store_values l acc n frag :
  (fold_left store_game l acc).1 !! n = Some frag ->
  acc.1 !! n = Some frag
  \/ exists e, e ∈ l /\ usable_name e = Some n /\ frag = tostring false e.
Proof.
  revert acc. induction l as [|e l IH]; intros acc H; [by left|].
  simpl in H. apply IH in H as [H|(e' & He' & Hn & ->)].
  - rewrite store_game_usable in H.
    destruct (usable_name e) as [m|] eqn:E; [|by left].
    simpl in H. destruct (decide (m = n)) as [->|Hne].
    + rewrite lookup_insert_eq in H. injection H as <-.
      right. exists e. split; [left|done].
    + rewrite lookup_insert_ne in H by done. by left.
  - right. exists e'. split; [by right|done].
Qed.

Lemma collect_games_values games n frag :
  (collect_games games).1 !! n = Some frag ->
  exists e, e ∈ games /\ usable_name e = Some n /\ frag = tostring false e.
Proof.
  intros H. apply fold_store_values in H as [H|H]; [|done].
  simpl in H. by rewrite lookup_empty in H.
Qed.

Lemma findall_descendants_tag t root e :
  e ∈ findall_descendants t root -> tag e = t.
Proof.
  unfold findall_descendants. rewrite list_elem_of_In, filter_In.
  intros [_ H]. by apply String.eqb_eq in H.
Qed.

End StoreFacts.

Section CatalogFacts.

Context {xml : XmlLibrary}.

(** A parsed input always yields a catalog: the store collected from
    the game elements in document order, and their number. *)
Lemma parse_and_compress_dat_store stem content root :
  parse content = Parsed root ->
  original_games_data (parse_and_compress_dat stem content)
  = Some (collect_games (findall_descendants "game" root)).1
  /\ game_count_original (parse_and_compress_dat stem content)
     = length (findall_descendants "game" root).
Proof.
  intros H. unfold parse_and_compress_dat. rewrite H.
  destruct (collect_games (findall_descendants "game" root))
    as [store tags].
  repeat case_match; done.
Qed.

End CatalogFacts.

(** C7: the name is the only key of the Catalog Store.  When two entry
    records of an input carry the same (non-empty) name, the record met
    later in document order replaces the earlier one: the store maps the
    name to the serialization of the last record with that name, parsing
    still returns a catalog (nothing is raised, no failure tuple), and
    both records are counted. *)
Theorem duplicate_name_last_wins {xml : XmlLibrary}
  (stem content : string) (root : Element)
  (before between after : list Element) (e1 e2 : Element) (n : string) :
  parse content = Parsed root ->
  findall_descendants "game" root = before ++ e1 :: between ++ e2 :: after ->
  get "name" (attrib e1) = Some n ->
  get "name" (attrib e2) = Some n ->
  n <> "" ->
  (forall e, e ∈ after -> get "name" (attrib e) <> Some n) ->
  exists store,
    original_games_data (parse_and_compress_dat stem content) = Some store
    /\ store !! n = Some (tostring false e2)
    /\ game_count_original (parse_and_compress_dat stem content)
       = length before + length between + length after + 2.
Proof.
  intros Hparse Hgames H1 H2 Hn Hafter.
  destruct (parse_and_compress_dat_store stem content root Hparse)
    as [Hstore Hcount].
  eexists. split; [exact Hstore|]. rewrite Hcount, Hgames. split.
  - unfold collect_games.
    replace (before ++ e1 :: between ++ e2 :: after)
      with ((before ++ e1 :: between) ++ e2 :: after)
      by (by rewrite <- app_assoc).
    apply fold_store_last.
    + by apply usable_name_spec.
    + intros e He Hu. apply usable_name_spec in Hu as [Hu _].
      by apply (Hafter e).
  - rewrite !length_app. simpl. rewrite length_app. simpl. lia.
Qed.

Lemma duplicate_name_last_wins_witness :
  exists store,
    original_games_data
      (@parse_and_compress_dat Sample.library "Nintendo - Game Boy" "")
    = Some store
    /\ store !! "A" = Some (Sample.serialize (Sample.game "A" "second A"))
    /\ game_count_original
         (@parse_and_compress_dat Sample.library "Nintendo - Game Boy" "")
       = 0 + 1 + 0 + 2.
Proof.
  apply (@duplicate_name_last_wins Sample.library "Nintendo - Game Boy" ""
           Sample.catalog_root [] [Sample.game "B" "the B"] []
           (Sample.game "A" "first A") (Sample.game "A" "second A") "A").
  - reflexivity.
  - reflexivity.
  - reflexivity.
  - reflexivity.
  - discriminate.
  - intros e He. by apply elem_of_nil in He.
Defined.

(** ** Selection Result *)

Lemma unique_kept_names_elem kept n :
  n ∈ unique_kept_names kept <-> n ∈ kept.
Proof.
  unfold unique_kept_names. rewrite merge_sort_Permutation.
  rewrite elem_of_elements. apply elem_of_list_to_set.
Qed.

Lemma unique_kept_names_NoDup kept : NoDup (unique_kept_names kept).
Proof.
  unfold unique_kept_names. rewrite merge_sort_Permutation.
  apply NoDup_elements.
Qed.

Lemma unique_kept_names_Sorted kept :
  Sorted String.le (unique_kept_names kept).
Proof. apply (Sorted_merge_sort String.le). Qed.

(** Only the set of names matters, not their order or multiplicity. *)
Lemma unique_kept_names_ext kept kept' :
  (forall n, n ∈ kept <-> n ∈ kept') ->
  unique_kept_names kept = unique_kept_names kept'.
Proof.
  intros H. unfold unique_kept_names. do 2 f_equal.
  apply set_eq. intros n. rewrite !elem_of_list_to_set. apply H.
Qed.

Lemma omap_filter_None {A B} (f : A -> option B) (p : A -> bool) l :
  (forall x, x ∈ l -> p x = false -> f x = None) ->
  omap f (List.filter p l) = omap f l.
Proof.
  induction l as [|x l IH]; intros H; [done|].
  assert (omap f (List.filter p l) = omap f l) as IH'.
  { apply IH. intros y Hy. apply H. by right. }
  cbn [List.filter]. destruct (p x) eqn:E; cbn [omap list_omap].
  - by rewrite IH'.
  - rewrite (H x); [done|left|done].
Qed.

Lemma emitted_Some store n p :
  emitted store n = Some p ->
  exists frag, store !! n = Some frag /\ frag <> ""
               /\ p = game_data_cleaned frag.
Proof.
  unfold emitted. destruct (store !! n) as [[|c x]|]; try done.
  intros [= <-]. eauto.
Qed.

Lemma emitted_lookup store n frag :
  store !! n = Some frag -> frag <> "" ->
  emitted store n = Some (game_data_cleaned frag).
Proof. unfold emitted. intros -> ?. by destruct frag. Qed.

(** A serialized element does not begin with an XML declaration, so
    cleaning it only trims it. *)
Lemma game_data_cleaned_element t rest :
  t <> "" -> Str.first t <> Some "?"%char ->
  game_data_cleaned ("<" +:+ t +:+ rest) = Str.strip ("<" +:+ t +:+ rest).
Proof.
  intros Ht Hq. unfold game_data_cleaned. f_equal.
  destruct t as [|c t]; [done|].
  unfold Re.sub_anchored, Re.xml_decl.
  change ("<" +:+ String c t +:+ rest)
    with (String "<" (String c (t +:+ rest))).
  cbn [Str.span_len]. change (isspace "<") with false. cbv iota.
  cbn [Str.drop Str.startswith]. change (Ascii.eqb "<" "<") with true.
  destruct (Ascii.eqb_spec "?" c) as [<-|Hc]; [done|]. done.
Qed.

Section DocumentFacts.

Context {xml : XmlLibrary}.

(** What the store holds for a game element is emitted trimmed and
    otherwise untouched. *)
Lemma store_entry_trimmed games n frag :
  (forall e, tag e = "game" ->
             exists rest, tostring false e = "<game" +:+ rest) ->
  (forall e, e ∈ games -> tag e = "game") ->
  (collect_games games).1 !! n = Some frag ->
  emitted (collect_games games).1 n = Some (Str.strip frag).
Proof.
  intros Hopen Htag H.
  destruct (collect_games_values _ _ _ H) as (e & He & _ & ->).
  destruct (Hopen e (Htag e He)) as [rest Hrest].
  rewrite (emitted_lookup _ _ _ H).
  - rewrite Hrest. change ("<game" +:+ rest) with ("<" +:+ "game" +:+ rest).
    by rewrite game_data_cleaned_element.
  - by rewrite Hrest.
Qed.

End DocumentFacts.

(** C1: whatever the input catalog and the selection of the oracle, as
    long as the serializer writes a game element starting with its
    opening tag, with the store built from the parsed input the Output
    Document is the preamble, the root tag, the
    header and a list of entry fragments (up to the closing cosmetic
    pass), where every
    entry fragment is the stored serialization of a selected record with
    only blanks removed around it, and every selected name that has a
    record in the store has such a fragment in the document.  Nothing is
    edited inside a fragment and no fragment is invented. *)
Theorem retained_entries_verbatim {xml : XmlLibrary}
  (stem content : string) (root : Element) (store : gmap string string)
  (ai hdr : string) (ai_root : Element) (w : World) :
  (forall e, tag e = "game" ->
             exists rest, tostring false e = "<game" +:+ rest) ->
  parse content = Parsed root ->
  original_games_data (parse_and_compress_dat stem content) = Some store ->
  ai <> "" ->
  fromstring (ai_response_clean ai) = Some ai_root ->
  exists entries w',
    reconstruct_filtered_dat ai hdr store w
    = (Some (finalize (document (tag ai_root) (header_part hdr) entries)),
       w')
    /\ (forall p, p ∈ entries ->
          exists n frag l r,
            n ∈ kept_game_names ai_root /\ store !! n = Some frag
            /\ frag = l +:+ p +:+ r /\ blank l /\ blank r)
    /\ (forall n frag,
          n ∈ kept_game_names ai_root -> store !! n = Some frag ->
          exists p l r,
            p ∈ entries /\ frag = l +:+ p +:+ r /\ blank l /\ blank r).
Proof.
  intros Hopen Hinput Hstore Hne Hparse.
  destruct (parse_and_compress_dat_store stem content root Hinput)
    as [Hcat _].
  rewrite Hcat in Hstore. injection Hstore as <-.
  set (store := (collect_games (findall_descendants "game" root)).1).
  pose proof (reconstruct_parsed ai hdr store ai_root w Hne Hparse) as Hrec.
  cbv zeta in Hrec. eexists _, _. split; [exact Hrec|].
  assert (forall n frag, store !! n = Some frag ->
            emitted store n = Some (Str.strip frag)) as Hemit.
  { intros n frag. apply store_entry_trimmed; [done|].
    intros e. apply findall_descendants_tag. }
  split.
  - intros p Hp. apply list_elem_of_omap in Hp as (n & Hn & Hp).
    rewrite unique_kept_names_elem in Hn.
    destruct (emitted_Some _ _ _ Hp) as (frag & Hfrag & _ & _).
    rewrite (Hemit _ _ Hfrag) in Hp. injection Hp as <-.
    destruct (strip_split frag) as (l & r & Hsplit & Hl & Hr).
    exists n, frag, l, r. unfold blank. by repeat split.
  - intros n frag Hn Hfrag.
    destruct (strip_split frag) as (l & r & Hsplit & Hl & Hr).
    exists (Str.strip frag), l, r. split; [|unfold blank; by repeat split].
    apply list_elem_of_omap. exists n. split; [|by apply Hemit].
    by apply unique_kept_names_elem.
Qed.

Lemma sample_serialize_open e :
  tag e = "game" -> exists rest, Sample.serialize e = "<game" +:+ rest.
Proof. destruct e. simpl. intros ->. eexists. reflexivity. Qed.

Lemma retained_entries_verbatim_witness :
  let store := Sample.store in
  exists entries w',
    @reconstruct_filtered_dat Sample.library "<datafile></datafile>"
      "<header></header>" store Sample.world
    = (Some (@finalize Sample.library
               (document "datafile"
                  (@header_part Sample.library "<header></header>")
                  entries)), w')
    /\ (forall p, p ∈ entries ->
          exists n frag l r,
            n ∈ kept_game_names Sample.oracle_root
            /\ store !! n = Some frag
            /\ frag = l +:+ p +:+ r /\ blank l /\ blank r)
    /\ (forall n frag,
          n ∈ kept_game_names Sample.oracle_root ->
          store !! n = Some frag ->
          exists p l r,
            p ∈ entries /\ frag = l +:+ p +:+ r /\ blank l /\ blank r).
Proof.
  apply (@retained_entries_verbatim Sample.library "Nintendo - Game Boy" ""
           Sample.catalog_root Sample.store
           "<datafile></datafile>" "<header></header>" Sample.oracle_root
           Sample.world).
  - exact sample_serialize_open.
  - reflexivity.
  - reflexivity.
  - discriminate.
  - reflexivity.
Defined.

Example unique_kept_names_B_A_A :
  unique_kept_names ["B"; "A"; "A"] = ["A"; "B"].
Proof. vm_compute. reflexivity. Qed.

(** C2: the names taken from the oracle response are freed of duplicates
    and sorted before they are looked up: the list of names is sorted,
    has no duplicates and holds exactly the names of the response; the
    Output Document lists, in that order, the fragment of each of these
    names that the store resolves; two responses with the same root tag
    and the same set of names, in any order and multiplicity, give the
    same document; and the names B, A, A against a store with A and B
    give the fragment of A, then that of B. *)
Theorem selection_deduplicated_sorted {xml : XmlLibrary}
  (ai hdr : string) (store : gmap string string) (ai_root : Element)
  (w : World) :
  ai <> "" ->
  fromstring (ai_response_clean ai) = Some ai_root ->
  let names := unique_kept_names (kept_game_names ai_root) in
  Sorted String.le names
  /\ NoDup names
  /\ (forall n, n ∈ names <-> n ∈ kept_game_names ai_root)
  /\ (reconstruct_filtered_dat ai hdr store w).1
     = Some (finalize (document (tag ai_root) (header_part hdr)
                         (omap (emitted store) names)))
  /\ (forall ai' ai_root' w',
        ai' <> "" ->
        fromstring (ai_response_clean ai') = Some ai_root' ->
        tag ai_root' = tag ai_root ->
        (forall n, n ∈ kept_game_names ai_root'
                   <-> n ∈ kept_game_names ai_root) ->
        (reconstruct_filtered_dat ai' hdr store w').1
        = (reconstruct_filtered_dat ai hdr store w).1)
  /\ (forall fa fb,
        store !! "A" = Some fa -> store !! "B" = Some fb ->
        fa <> "" -> fb <> "" ->
        omap (emitted store) (unique_kept_names ["B"; "A"; "A"])
        = [game_data_cleaned fa; game_data_cleaned fb]).
Proof.
  intros Hne Hparse names.
  split; [apply unique_kept_names_Sorted|].
  split; [apply unique_kept_names_NoDup|].
  split; [intros n; apply unique_kept_names_elem|].
  pose proof (reconstruct_parsed ai hdr store ai_root w Hne Hparse) as Hrec.
  cbv zeta in Hrec. fold names in Hrec.
  split; [by rewrite Hrec|]. split.
  - intros ai' ai_root' w' Hne' Hparse' Htag Hset.
    rewrite Hrec, (reconstruct_parsed ai' hdr store ai_root' w' Hne' Hparse').
    cbv zeta. cbn [fst]. rewrite Htag.
    by rewrite (unique_kept_names_ext _ _ Hset).
  - intros fa fb Ha Hb Hfa Hfb. rewrite unique_kept_names_B_A_A.
    cbn [omap list_omap].
    by rewrite (emitted_lookup _ _ _ Ha Hfa), (emitted_lookup _ _ _ Hb Hfb).
Qed.

Lemma selection_deduplicated_sorted_witness :
  (@reconstruct_filtered_dat Sample.library "<datafile></datafile>"
     "<header></header>" Sample.store Sample.world).1
  = Some (@finalize Sample.library
            (document "datafile"
               (@header_part Sample.library "<header></header>")
               (omap (emitted Sample.store)
                  (unique_kept_names
                     (kept_game_names Sample.oracle_root))))).
Proof.
  apply (@selection_deduplicated_sorted Sample.library
           "<datafile></datafile>" "<header></header>" Sample.store
           Sample.oracle_root Sample.world).
  - discriminate.
  - reflexivity.
Defined.

(** C8: a selected name without a record in the store adds no fragment
    to the document (the document is the one of the selection without
    that name), the omission is reported on the console and counted in
    the closing summary, nothing is written to disk and the
    reconstruction still returns a document; every fragment of the
    document comes from a record of the store. *)
Theorem unknown_name_omitted {xml : XmlLibrary}
  (ai hdr : string) (store : gmap string string) (ai_root : Element)
  (w : World) (n : string) :
  ai <> "" ->
  fromstring (ai_response_clean ai) = Some ai_root ->
  n ∈ kept_game_names ai_root ->
  store !! n = None ->
  let names := unique_kept_names (kept_game_names ai_root) in
  let others := List.filter (fun x => negb (String.eqb x n)) names in
  exists w' found missing,
    reconstruct_filtered_dat ai hdr store w
    = (Some (finalize (document (tag ai_root) (header_part hdr)
                         (omap (emitted store) others))), w')
    /\ MissingGame n ∈ console w'
    /\ Completed found missing ∈ console w'
    /\ found = length (omap (emitted store) names)
    /\ missing = length (List.filter (unresolved store) names)
    /\ 0 < missing
    /\ files w' = files w
    /\ (forall p, p ∈ omap (emitted store) others ->
          exists m frag, m ∈ kept_game_names ai_root
                         /\ store !! m = Some frag
                         /\ p = game_data_cleaned frag).
Proof.
  intros Hne Hparse Hn Hstore names others.
  pose proof (reconstruct_parsed ai hdr store ai_root w Hne Hparse) as Hrec.
  cbv zeta in Hrec. fold names in Hrec.
  assert (emitted store n = None) as Hemit
    by (unfold emitted; by rewrite Hstore).
  assert (omap (emitted store) others = omap (emitted store) names) as Hsame.
  { apply omap_filter_None. intros x _ Hx.
    apply negb_false_iff, String.eqb_eq in Hx. by subst. }
  assert (n ∈ List.filter (unresolved store) names) as Hmiss.
  { apply list_elem_of_In, filter_In. split.
    - apply list_elem_of_In. by apply unique_kept_names_elem.
    - unfold unresolved. by rewrite Hemit. }
  eexists _, _, _. rewrite Hsame. split; [exact Hrec|].
  rewrite log_events_console. unfold reconstruct_events.
  split; [|split; [|split; [reflexivity|split; [reflexivity|split; [|split]]]]].
  - rewrite !elem_of_app. right. right. right. right. left.
    apply list_elem_of_fmap. eauto.
  - rewrite !elem_of_app. right. right. right. right. right. left.
    apply list_elem_of_singleton. reflexivity.
  - destruct (List.filter (unresolved store) names); [|simpl; lia].
    by apply elem_of_nil in Hmiss.
  - reflexivity.
  - intros p Hp. apply list_elem_of_omap in Hp as (m & Hm & Hp).
    unfold names in Hm. rewrite unique_kept_names_elem in Hm.
    destruct (emitted_Some _ _ _ Hp) as (frag & Hfrag & _ & ->).
    by exists m, frag.
Qed.

Lemma unknown_name_omitted_witness :
  let names := unique_kept_names (kept_game_names Sample.oracle_root) in
  let others := List.filter (fun x => negb (String.eqb x "C")) names in
  exists w' found missing,
    @reconstruct_filtered_dat Sample.library "<datafile></datafile>"
      "<header></header>" Sample.store Sample.world
    = (Some (@finalize Sample.library
               (document "datafile"
                  (@header_part Sample.library "<header></header>")
                  (omap (emitted Sample.store) others))), w')
    /\ MissingGame "C" ∈ console w'
    /\ Completed found missing ∈ console w'
    /\ found = length (omap (emitted Sample.store) names)
    /\ missing = length (List.filter (unresolved Sample.store) names)
    /\ 0 < missing
    /\ files w' = files Sample.world
    /\ (forall p, p ∈ omap (emitted Sample.store) others ->
          exists m frag, m ∈ kept_game_names Sample.oracle_root
                         /\ Sample.store !! m = Some frag
                         /\ p = game_data_cleaned frag).
Proof.
  apply (@unknown_name_omitted Sample.library "<datafile></datafile>"
           "<header></header>" Sample.store Sample.oracle_root
           Sample.world "C").
  - discriminate.
  - reflexivity.
  - vm_compute. do 3 right. left.
  - vm_compute. reflexivity.
Defined.



(** ** Header mutation *)

Lemma find_split t cs j e :
  find t cs = Some (j, e) ->
  exists pre post,
    cs = pre ++ e :: post /\ length pre = j /\ find t pre = None
    /\ tag e = t.
Proof.
  revert j. induction cs as [|x cs IH]; intros j H; [done|].
  simpl in H. destruct (String.eqb_spec (tag x) t) as [Ht|Ht].
  - injection H as <- <-. by exists [], cs.
  - destruct (find t cs) as [[i y]|] eqn:E; [|done].
    injection H as <- <-.
    destruct (IH i eq_refl) as (pre & post & -> & Hl & Hpre & Hy).
    exists (x :: pre), post. simpl. rewrite Hpre, Hl.
    by destruct (String.eqb_spec (tag x) t).
Qed.

Lemma find_middle t pre e post :
  find t pre = None -> tag e = t ->
  find t (pre ++ e :: post) = Some (length pre, e).
Proof.
  intros Hpre He. induction pre as [|x pre IH]; simpl.
  - by rewrite He, String.eqb_refl.
  - simpl in Hpre. destruct (String.eqb (tag x) t); [done|].
    destruct (find t pre) as [[i y]|]; [done|]. by rewrite IH.
Qed.

Lemma find_tagged t cs :
  snd <$> find t cs = head (children_tagged t cs).
Proof.
  induction cs as [|x cs IH]; [done|]. unfold children_tagged in *.
  simpl. unfold has_tag at 1. destruct (String.eqb (tag x) t); [done|].
  rewrite <- IH. by destruct (find t cs) as [[i y]|].
Qed.

Lemma find_None_tagged t cs :
  find t cs = None <-> children_tagged t cs = [].
Proof.
  pose proof (find_tagged t cs) as H.
  destruct (find t cs) as [[i y]|], (children_tagged t cs); simpl in H;
    split; done.
Qed.

Lemma children_tagged_app t l1 l2 :
  children_tagged t (l1 ++ l2) = children_tagged t l1 ++ children_tagged t l2.
Proof. apply List.filter_app. Qed.

Lemma children_tagged_cons_ne t x l :
  tag x <> t -> children_tagged t (x :: l) = children_tagged t l.
Proof.
  intros H. unfold children_tagged. simpl. unfold has_tag at 1.
  by destruct (String.eqb_spec (tag x) t).
Qed.

Lemma children_tagged_cons_eq t x l :
  tag x = t -> children_tagged t (x :: l) = x :: children_tagged t l.
Proof.
  intros H. unfold children_tagged. simpl. unfold has_tag at 1.
  by destruct (String.eqb_spec (tag x) t).
Qed.


(** The description step changes no child with another tag. *)
Lemma mutate_description_tagged t h :
  t <> "description" ->
  children_tagged t (children (mutate_description h))
  = children_tagged t (children h).
Proof.
  intros Ht. unfold mutate_description.
  destruct (find "description" (children h)) as [[i d]|] eqn:E.
  - destruct (negb _); [|done]. simpl.
    destruct (find_split _ _ _ _ E) as (pre & post & -> & <- & _ & Hd).
    replace (length pre) with (length pre + 0) by lia.
    rewrite insert_app_r. simpl.
    rewrite !children_tagged_app, !children_tagged_cons_ne; try done.
    all: simpl; congruence.
  - simpl. rewrite children_tagged_app, children_tagged_cons_ne; [|done].
    apply app_nil_r.
Qed.

(** Removing the prior marker tag changes no child with another tag. *)
Lemma remove_existing_aknf_tagged t cs :
  t <> "geminiaknf" ->
  children_tagged t (remove_existing_aknf cs) = children_tagged t cs.
Proof.
  intros Ht. unfold remove_existing_aknf.
  destruct (find "geminiaknf" cs) as [[i g]|] eqn:E; [|done].
  destruct (find_split _ _ _ _ E) as (pre & post & -> & <- & _ & Hg).
  rewrite delete_middle, !children_tagged_app.
  rewrite children_tagged_cons_ne; [done|congruence].
Qed.

Lemma remove_existing_aknf_count cs :
  count_tag "geminiaknf" (remove_existing_aknf cs)
  = pred (count_tag "geminiaknf" cs).
Proof.
  unfold remove_existing_aknf, count_tag.
  destruct (find "geminiaknf" cs) as [[i g]|] eqn:E.
  - destruct (find_split _ _ _ _ E) as (pre & post & -> & <- & Hpre & Hg).
    rewrite delete_middle, !children_tagged_app.
    rewrite children_tagged_cons_eq by done.
    apply find_None_tagged in Hpre. by rewrite Hpre.
  - apply find_None_tagged in E. by rewrite E.
Qed.

(** What the description field holds after the description step. *)
Lemma mutate_description_text h :
  description_text (mutate_description h) =
  match description_text h with
  | Some txt =>
      let original_desc :=
        match txt with
        | Some t => if String.eqb t "" then "" else Str.strip t
        | None => ""
        end in
      if Str.contains MARKER original_desc then Some txt
      else Some (Some (Str.strip (original_desc +:+ " " +:+ MARKER)))
  | None => Some (Some MARKER)
  end.
Proof.
  unfold description_text, mutate_description.
  destruct (find "description" (children h)) as [[i d]|] eqn:E.
  - cbv zeta. destruct (Str.contains MARKER _); simpl; [by rewrite E|].
    destruct (find_split _ _ _ _ E) as (pre & post & -> & <- & Hpre & Hd).
    replace (length pre) with (length pre + 0) by lia.
    rewrite insert_app_r. simpl. by rewrite find_middle.
  - simpl. set (d := mkElement "description" [] (Some MARKER) [] None).
    replace (children h ++ [d]) with (children h ++ d :: []) by done.
    by rewrite find_middle.
Qed.

(** The provenance-tag step does not touch the description field. *)
Lemma mutate_header_description_text h :
  description_text (mutate_header h)
  = description_text (mutate_description h).
Proof.
  unfold description_text, mutate_header.
  set (h1 := mutate_description h).
  set (cs2 := remove_existing_aknf (children h1)).
  assert (forall cs cs', children_tagged "description" cs
                         = children_tagged "description" cs' ->
            match find "description" cs with
            | Some (_, d) => Some (text d) | None => None end
            = match find "description" cs' with
              | Some (_, d) => Some (text d) | None => None end) as Hfind.
  { intros cs cs' H. pose proof (find_tagged "description" cs) as H1.
    pose proof (find_tagged "description" cs') as H2.
    rewrite H in H1. rewrite <- H2 in H1.
    destruct (find "description" cs) as [[i d]|],
             (find "description" cs') as [[i' d']|]; simpl in H1; congruence. }
  apply Hfind. simpl. unfold list_insert_at.
  rewrite children_tagged_app, children_tagged_cons_ne by done.
  rewrite <- children_tagged_app, take_drop.
  by apply remove_existing_aknf_tagged.
Qed.

(** *** Trimming keeps the marker *)

Lemma rstrip_by_app_nonempty p x y :
  Str.rstrip_by p y <> "" ->
  Str.rstrip_by p (x +:+ y) = x +:+ Str.rstrip_by p y.
Proof.
  intros Hy. induction x as [|c x IH]; [done|].
  rewrite !str_app_cons. cbn [Str.rstrip_by]. rewrite IH.
  destruct (x +:+ Str.rstrip_by p y) eqn:E; [|done].
  apply str_app_eq_nil in E as [_ E]. done.
Qed.

Lemma rstrip_by_app_empty p x y :
  Str.rstrip_by p y = "" -> Str.rstrip_by p (x +:+ y) = Str.rstrip_by p x.
Proof.
  intros Hy. induction x as [|c x IH]; [done|].
  rewrite str_app_cons. cbn [Str.rstrip_by]. by rewrite IH.
Qed.

Lemma lstrip_by_keeps p pre m post :
  m <> "" -> starts_clean p m = true ->
  exists pre', Str.lstrip_by p (pre +:+ m +:+ post) = pre' +:+ m +:+ post.
Proof.
  intros Hm Hc. induction pre as [|c pre IH].
  - exists "". change ("" +:+ ?x) with x. apply lstrip_by_id.
    by rewrite starts_clean_app.
  - rewrite str_app_cons. cbn [Str.lstrip_by]. destruct (p c).
    + exact IH.
    + by exists (String c pre).
Qed.

Lemma rstrip_by_keeps p pre m post :
  m <> "" -> ends_clean p m = true ->
  exists post', Str.rstrip_by p (pre +:+ m +:+ post) = pre +:+ m +:+ post'.
Proof.
  intros Hm Hc.
  assert (exists post', Str.rstrip_by p (m +:+ post) = m +:+ post')
    as [post' Hpost].
  { destruct (Str.rstrip_by p post) as [|c r] eqn:E.
    - exists "". rewrite rstrip_by_app_empty by done.
      by rewrite rstrip_by_id, str_app_nil_r.
    - exists (String c r). rewrite rstrip_by_app_nonempty; by rewrite E. }
  exists post'. rewrite rstrip_by_app_nonempty; rewrite Hpost; [done|].
  intros H. apply str_app_eq_nil in H as [? _]. done.
Qed.

(** A text between non-blank characters survives trimming. *)
Lemma strip_contains m s :
  m <> "" -> starts_clean isspace m = true -> ends_clean isspace m = true ->
  Str.contains m s = true -> Str.contains m (Str.strip s) = true.
Proof.
  intros Hm Hs He H. apply contains_spec in H as (pre & post & ->).
  unfold Str.strip.
  destruct (lstrip_by_keeps isspace pre m post Hm Hs) as [pre' ->].
  destruct (rstrip_by_keeps isspace pre' m post Hm He) as [post' ->].
  apply contains_spec. eauto.
Qed.

Lemma contains_strip_inv m s :
  Str.contains m (Str.strip s) = true -> Str.contains m s = true.
Proof.
  intros H. apply contains_spec in H as (pre & post & H).
  destruct (strip_split s) as (l & r & Hs & _ & _). rewrite H in Hs.
  apply contains_spec. exists (l +:+ pre), (post +:+ r).
  by rewrite Hs, !str_app_assoc.
Qed.

Lemma marker_strip_contains s :
  Str.contains MARKER s = true -> Str.contains MARKER (Str.strip s) = true.
Proof. by apply strip_contains. Qed.

(** After the header mutation the description field holds the marker. *)
Lemma mutate_header_has_marker h :
  exists t, description_text (mutate_header h) = Some (Some t)
            /\ Str.contains MARKER t = true.
Proof.
  rewrite mutate_header_description_text, mutate_description_text.
  destruct (description_text h) as [txt|]; [|by exists MARKER].
  cbv zeta. destruct (Str.contains MARKER _) eqn:E.
  - destruct txt as [t|]; [|done].
    destruct (String.eqb t ""); [done|].
    exists t. split; [done|]. by apply contains_strip_inv.
  - eexists. split; [done|]. apply marker_strip_contains.
    apply contains_spec. eexists (_ +:+ " "), "".
    rewrite str_app_assoc. reflexivity.
Qed.

(** C3: the description step of the header mutation is idempotent on
    the provenance marker.  A description field whose text already
    contains the marker is left exactly as it is; after one mutation the
    field contains the marker; hence a second mutation yields the same
    description text as the first. *)
Theorem description_marker_idempotent (h : Element) :
  (forall t, description_text h = Some (Some t) ->
             Str.contains MARKER t = true ->
             description_text (mutate_header h) = description_text h)
  /\ description_text (mutate_header (mutate_header h))
     = description_text (mutate_header h).
Proof.
  assert (forall h' t, description_text h' = Some (Some t) ->
             Str.contains MARKER t = true ->
             description_text (mutate_header h') = description_text h')
    as Hkeep.
  { intros h' t Ht Hc.
    rewrite mutate_header_description_text, mutate_description_text, Ht.
    cbv zeta. destruct (String.eqb t "") eqn:Hne.
    - apply String.eqb_eq in Hne. by subst.
    - by rewrite marker_strip_contains. }
  split; [apply Hkeep|].
  destruct (mutate_header_has_marker h) as (t & Ht & Hc).
  by apply (Hkeep _ t).
Qed.

Lemma description_marker_idempotent_witness :
  description_text
    (mutate_header
       (mkElement "header" []  None
          [Sample.leaf "description" "Game Boy (GeminiAKNF)"] None))
  = description_text
      (mkElement "header" [] None
         [Sample.leaf "description" "Game Boy (GeminiAKNF)"] None).
Proof.
  apply (proj1 (description_marker_idempotent
                  (mkElement "header" [] None
                     [Sample.leaf "description" "Game Boy (GeminiAKNF)"]
                     None)) "Game Boy (GeminiAKNF)").
  - reflexivity.
  - reflexivity.
Defined.






(** ** Oracle Gateway *)

(** The normalized response has no blanks around it. *)
Lemma normalize_response_trimmed text :
  starts_clean isspace (normalize_response text) = true
  /\ ends_clean isspace (normalize_response text) = true.
Proof.
  unfold normalize_response. split.
  - apply strip_starts_clean.
  - apply strip_ends_clean.
Qed.

Example normalize_response_fenced :
  normalize_response
    ("  ```XML" +:+ NL +:+ "<datafile></datafile>" +:+ NL +:+ "```" +:+ NL)
  = "<datafile></datafile>".
Proof. reflexivity. Qed.

Section GatewayFacts.

Context {oracle : Oracle}.

(** A response that starts like a document is returned normalized;
    nothing is written. *)
Lemma call_gemini_api_valid prompt raw block_reason w :
  generate_content prompt = ApiAnswer (Some raw) block_reason ->
  raw <> "" ->
  has_preamble (normalize_response raw) = true ->
  call_gemini_api prompt w
  = (Some (normalize_response raw),
     mkWorld (console w ++ [ApiReceived]) (files w) (fs_writable w)
       (S (api_calls w))).
Proof.
  intros Hgen Hraw Hpre. unfold call_gemini_api. rewrite Hgen.
  destruct raw as [|c t]; [done|]. rewrite Hpre. reflexivity.
Qed.

End GatewayFacts.

(** C5 (as amended): the response text is trimmed, freed of wrapping
    code-fence markers and trimmed again; when the result does not start
    with one of the two preambles, the call returns failure, the oracle
    has been asked exactly once, and the diagnostic artifact
    invalid_ai_response_start.xml receives the normalized text (not the
    raw response) if the file can be written; if it cannot, a warning is
    printed instead and the files are unchanged. *)
Theorem invalid_start_is_failure {oracle : Oracle}
  (prompt raw : string) (block_reason : option string) (w : World) :
  generate_content prompt = ApiAnswer (Some raw) block_reason ->
  raw <> "" ->
  has_preamble (normalize_response raw) = false ->
  exists w',
    call_gemini_api prompt w = (None, w')
    /\ api_calls w' = S (api_calls w)
    /\ files w'
       = (if fs_writable w
          then <[INVALID_ARTIFACT := normalize_response raw]> (files w)
          else files w)
    /\ console w'
       = console w
           ++ [ApiReceived;
               InvalidStart (Str.take 500 (normalize_response raw));
               if fs_writable w then SavedInvalid else CannotSaveInvalid]
    /\ starts_clean isspace (normalize_response raw) = true
    /\ ends_clean isspace (normalize_response raw) = true.
Proof.
  intros Hgen Hraw Hpre. unfold call_gemini_api. rewrite Hgen.
  destruct raw as [|c t]; [done|]. rewrite Hpre. cbn [negb].
  destruct (normalize_response_trimmed (String c t)) as [Hs He].
  unfold mbind, M_bind, mret, M_ret, count_api_call, print, write_file.
  cbn [console files fs_writable api_calls].
  destruct (fs_writable w) eqn:Ew; eexists; (split; [reflexivity|]);
    cbn [console files fs_writable api_calls]; rewrite ?Ew;
    rewrite <- ?app_assoc; done.
Qed.

Lemma invalid_start_is_failure_witness :
  exists w',
    @call_gemini_api chatty_oracle "prompt" Sample.world = (None, w')
    /\ api_calls w' = S (api_calls Sample.world)
    /\ files w'
       = (if fs_writable Sample.world
          then <[INVALID_ARTIFACT := normalize_response fenced_chatter]>
                 (files Sample.world)
          else files Sample.world)
    /\ console w'
       = console Sample.world
           ++ [ApiReceived;
               InvalidStart
                 (Str.take 500 (normalize_response fenced_chatter));
               if fs_writable Sample.world then SavedInvalid
               else CannotSaveInvalid]
    /\ starts_clean isspace (normalize_response fenced_chatter) = true
    /\ ends_clean isspace (normalize_response fenced_chatter) = true.
Proof.
  apply (@invalid_start_is_failure chatty_oracle "prompt" fenced_chatter
           None Sample.world).
  - reflexivity.
  - discriminate.
  - reflexivity.
Defined.

(** The claim C5 as stated fails: for a fenced answer the artifact holds
    the text without the fences, which is not the raw response. *)
Lemma invalid_artifact_not_raw :
  files (@call_gemini_api chatty_oracle "prompt" Sample.world).2
    !! INVALID_ARTIFACT
  = Some "I cannot filter this file."
  /\ fenced_chatter <> "I cannot filter this file.".
Proof. split; [vm_compute; reflexivity|discriminate]. Qed.

(** ** Output naming *)

Lemma forallb_map Q f s :
  (forall c, Q (f c) = true) -> Str.forallb Q (Str.map f s) = true.
Proof.
  intros H. induction s as [|c s IH]; [done|]. simpl. by rewrite H, IH.
Qed.

Lemma forallb_sub_go Q m repl k s :
  Str.forallb Q s = true -> Str.forallb Q repl = true ->
  Str.forallb Q (Re.sub_go m repl k s) = true.
Proof.
  intros Hs Hr. revert k. induction s as [|c s IH]; intros k; [done|].
  simpl in Hs. apply andb_true_iff in Hs as [Hc Hs]. specialize (IH Hs).
  cbn [Re.sub_go]. destruct k as [|k]; [|apply IH].
  destruct (m (String c s)) as [[|n]|].
  - simpl. by rewrite Hc, IH.
  - by rewrite str_forallb_app, Hr, IH.
  - simpl. by rewrite Hc, IH.
Qed.

Lemma forallb_lstrip_by Q p s :
  Str.forallb Q s = true -> Str.forallb Q (Str.lstrip_by p s) = true.
Proof.
  intros H. destruct (lstrip_by_split p s) as (l & Hs & _).
  rewrite Hs, str_forallb_app in H. by apply andb_true_iff in H as [_ H].
Qed.

Lemma forallb_rstrip_by Q p s :
  Str.forallb Q s = true -> Str.forallb Q (Str.rstrip_by p s) = true.
Proof.
  intros H. destruct (rstrip_by_split p s) as (r & Hs & _).
  rewrite Hs, str_forallb_app in H. by apply andb_true_iff in H as [H _].
Qed.

Lemma sub_one_of_filter p s :
  Re.sub (Re.one_of p) "" s = Str.filter (fun c => negb (p c)) s.
Proof.
  induction s as [|c s IH]; [done|]. rewrite sub_cons. simpl.
  destruct (p c); simpl; by rewrite IH.
Qed.

(** The characters that survive the two replacements and the two
    removals are allowed ones. *)
Lemma surviving_char_allowed c :
  let c1 := if Ascii.eqb c "/" then "-"%char else c in
  let c2 := if Ascii.eqb c1 "\" then "-"%char else c1 in
  negb (is_reserved_char c2) = true -> negb (is_control_char c2) = true ->
  allowed_char c2 = true.
Proof.
  destruct c as [[] [] [] [] [] [] [] []]; vm_compute; done.
Qed.

Lemma clean_filename_allowed filename :
  Str.forallb allowed_char (clean_filename filename) = true.
Proof.
  unfold clean_filename. apply forallb_rstrip_by.
  unfold Str.strip. apply forallb_rstrip_by, forallb_lstrip_by.
  apply forallb_sub_go; [|done]. rewrite !sub_one_of_filter.
  unfold Str.replace_char.
  induction filename as [|c s IH]; [done|]. cbn [Str.map Str.filter].
  pose proof (surviving_char_allowed c) as Hc. cbv zeta in Hc.
  destruct (negb (is_reserved_char _)) eqn:E1; [|exact IH].
  cbn [Str.filter].
  destruct (negb (is_control_char _)) eqn:E2; [|exact IH].
  cbn [Str.forallb]. by rewrite Hc, IH.
Qed.

Lemma clean_filename_ends_clean filename :
  ends_clean is_dot_or_space (clean_filename filename) = true.
Proof. apply rstrip_by_ends_clean. Qed.

(** *** [rfind] and [splitext] *)

Lemma rfind_char_range c s :
  (-1 <= rfind_char c s < Z.of_nat (String.length s))%Z.
Proof.
  induction s as [|d s IH]; [simpl; lia|]. cbn [rfind_char String.length].
  destruct (0 <=? rfind_char c s)%Z eqn:E; [lia|].
  destruct (Ascii.eqb d c); lia.
Qed.

Lemma rfind_char_absent c s :
  rfind_char c s = (-1)%Z -> Str.forallb (not_char c) s = true.
Proof.
  induction s as [|d s IH]; [done|]. cbn [rfind_char Str.forallb].
  pose proof (rfind_char_range c s).
  destruct (0 <=? rfind_char c s)%Z eqn:E; [lia|].
  unfold not_char at 1. destruct (Ascii.eqb d c); [done|].
  intros _. apply IH. lia.
Qed.

Lemma rfind_char_split c s :
  (0 <= rfind_char c s)%Z ->
  exists a b, s = a +:+ String c b
              /\ Z.of_nat (String.length a) = rfind_char c s
              /\ Str.forallb (not_char c) b = true.
Proof.
  induction s as [|d s IH]; [simpl; lia|]. cbn [rfind_char].
  pose proof (rfind_char_range c s).
  destruct (0 <=? rfind_char c s)%Z eqn:E.
  - intros _. destruct IH as (a & b & -> & Hl & Hb); [lia|].
    exists (String d a), b. split; [done|]. split; [|done]. simpl. lia.
  - destruct (Ascii.eqb_spec d c) as [->|]; [|lia]. intros _.
    exists "", s. split; [done|]. split; [done|].
    apply rfind_char_absent. lia.
Qed.

Lemma rfind_char_ge c x y :
  (Z.of_nat (String.length x) <= rfind_char c (x +:+ String c y))%Z.
Proof.
  induction x as [|d x IH].
  - change ("" +:+ String c y) with (String c y). cbn [rfind_char].
    destruct (0 <=? rfind_char c y)%Z eqn:E; [simpl; lia|].
    by rewrite Ascii.eqb_refl.
  - rewrite str_app_cons. cbn [rfind_char String.length].
    destruct (0 <=? rfind_char c (x +:+ String c y))%Z eqn:E; lia.
Qed.

Lemma splitext_app p a b : splitext p = (a, b) -> p = a +:+ b.
Proof.
  unfold splitext. destruct (_ <? _)%Z; [|intros [= <- <-]].
  - destruct (negb _); intros [= <- <-].
    + by rewrite str_take_drop.
    + by rewrite str_app_nil_r.
  - by rewrite str_app_nil_r.
Qed.

Lemma str_take_app_length a b : Str.take (String.length a) (a +:+ b) = a.
Proof. induction a as [|c a IH]; [by destruct b|]. simpl. by rewrite IH. Qed.

(** The extension is empty, or a dot followed by text without dots. *)
Lemma splitext_ext p a b :
  splitext p = (a, b) ->
  b = "" \/ exists e, b = String "." e /\ Str.forallb (not_char ".") e = true.
Proof.
  unfold splitext. destruct (_ <? _)%Z eqn:E; [|intros [= <- <-]; by left].
  destruct (negb _); [|intros [= <- <-]; by left]. intros [= <- <-].
  pose proof (rfind_char_range "/" p).
  destruct (rfind_char_split "." p) as (x & y & Hp & Hl & Hy).
  { apply Z.ltb_lt in E. lia. }
  right. exists y. split; [|done].
  rewrite <- Hl, Nat2Z.id. rewrite Hp at 1. by rewrite str_drop_app_length.
Qed.

Lemma splitext_stem_nonempty p : p <> "" -> (splitext p).1 <> "".
Proof.
  intros Hp. unfold splitext. destruct (_ <? _)%Z; [|done].
  destruct (negb _) eqn:E; [|done]. simpl. intros H.
  destruct (Z.to_nat (rfind_char "." p)); [simpl in E; done|].
  by destruct p.
Qed.

Lemma rfind_char_none c s :
  Str.forallb (not_char c) s = true -> rfind_char c s = (-1)%Z.
Proof.
  induction s as [|d s IH]; [done|]. cbn [Str.forallb rfind_char].
  intros H. apply andb_true_iff in H as [Hd Hs]. rewrite (IH Hs). simpl.
  unfold not_char in Hd. by destruct (Ascii.eqb d c).
Qed.

Lemma str_drop_nil n p : Str.drop n p = "" -> String.length p <= n.
Proof.
  revert p. induction n as [|n IH]; intros [|c p] H; simpl in *;
    try done; try lia.
  specialize (IH p H). lia.
Qed.

(** A dot behind a character that is not a dot starts an extension, in
    a name without directory part. *)
Lemma splitext_has_ext p c a r :
  Str.forallb (not_char "/") p = true ->
  p = String c a +:+ String "." r -> c <> "."%char ->
  (splitext p).2 <> "".
Proof.
  intros Hsep Hp Hc. unfold splitext. rewrite (rfind_char_none _ _ Hsep).
  pose proof (rfind_char_ge "." (String c a) r) as Hge.
  rewrite <- Hp in Hge. simpl in Hge.
  pose proof (rfind_char_range "." p) as Hr.
  destruct (-1 <? rfind_char "." p)%Z eqn:E; [|apply Z.ltb_ge in E; lia].
  change (Z.to_nat (-1 + 1)) with 0. rewrite Nat.sub_0_r.
  change (Str.drop 0 p) with p.
  destruct (Z.to_nat (rfind_char "." p)) as [|k] eqn:Ek; [lia|].
  rewrite Hp at 1. rewrite str_app_cons. cbn [Str.take Str.forallb].
  destruct (Ascii.eqb_spec c "."); [done|]. cbn [andb negb snd].
  intros H. apply str_drop_nil in H. lia.
Qed.

(** A text without tilde in front of a text with one. *)
Lemma tilde_free_prefix a b n e :
  a +:+ b = n +:+ String "~" e -> Str.forallb (not_char "~") a = true ->
  exists rest, n = a +:+ rest /\ b = rest +:+ String "~" e.
Proof.
  revert n. induction a as [|c a IH]; intros n H Ha.
  - exists n. done.
  - simpl in Ha. apply andb_true_iff in Ha as [Hc Ha].
    rewrite str_app_cons in H. destruct n as [|d n].
    + injection H as -> _. done.
    + rewrite str_app_cons in H. injection H as -> H.
      destruct (IH n H Ha) as (rest & -> & ->). by exists rest.
Qed.

(** *** Reserved device names *)

Lemma map_forallb_inv f Q Q' s :
  (forall c, Q (f c) = true -> Q' c = true) ->
  Str.forallb Q (Str.map f s) = true -> Str.forallb Q' s = true.
Proof.
  intros H. induction s as [|c s IH]; [done|]. simpl.
  rewrite !andb_true_iff. intros [Hc Hs]. auto.
Qed.

Lemma upper_alnum_plain c :
  is_upper_alnum (upper_char c) = true -> plain_char c = true.
Proof. destruct c as [[] [] [] [] [] [] [] []]; vm_compute; done. Qed.

Lemma reserved_names_alnum x :
  x ∈ reserved_names -> x <> "" /\ Str.forallb is_upper_alnum x = true.
Proof.
  unfold reserved_names. rewrite elem_of_list_to_set, list_elem_of_In.
  simpl. intros H.
  repeat (destruct H as [<-|H]; [split; [discriminate|reflexivity]|]).
  done.
Qed.

(** A stem that upper-cases to a reserved name is not empty and has no
    tilde, dot or underscore. *)
Lemma reserved_upper_plain s :
  Str.upper s ∈ reserved_names ->
  s <> "" /\ Str.forallb plain_char s = true.
Proof.
  intros H. apply reserved_names_alnum in H as [Hne Hall]. split.
  - by intros ->.
  - eapply map_forallb_inv; [apply upper_alnum_plain|exact Hall].
Qed.

(** *** UTF-8 *)

Lemma encode_char_cases c :
  ((ord c <? 128)%N = true /\ Utf8.encode_char c = [ord c])
  \/ exists b1 b2,
       Utf8.encode_char c = [b1; b2]
       /\ (b1 <? 128)%N = false
       /\ ((194 <=? b1) && (b1 <=? 195))%N = true
       /\ ((128 <=? b2) && (b2 <=? 191))%N = true
       /\ chr ((b1 - 192) * 64 + (b2 - 128)) = c.
Proof.
  destruct c as [[] [] [] [] [] [] [] []]; vm_compute;
    first [left; done | right; eexists _, _; done].
Qed.

Lemma chr_ord c : chr (ord c) = c.
Proof. apply ascii_N_embedding. Qed.

Lemma encode_app a b : Utf8.encode (a +:+ b) = Utf8.encode a ++ Utf8.encode b.
Proof.
  induction a as [|c a IH]; [done|]. rewrite str_app_cons. simpl.
  by rewrite IH, app_assoc.
Qed.

Lemma byte_length_app a b :
  Utf8.byte_length (a +:+ b) = Utf8.byte_length a + Utf8.byte_length b.
Proof. unfold Utf8.byte_length. by rewrite encode_app, length_app. Qed.

(** Decoding the first [n] bytes of an encoded text gives a prefix of
    the text that takes at most [n] bytes: a character cut in the middle
    is dropped. *)
Lemma decode_take_encode n s :
  exists k, Utf8.decode (take n (Utf8.encode s)) = Str.take k s
            /\ Utf8.byte_length (Str.take k s) <= n.
Proof.
  revert n. induction s as [|c s IH]; intros n.
  { exists 0. simpl. rewrite take_nil. split; [done|]. cbn. lia. }
  cbn [Utf8.encode].
  destruct (encode_char_cases c)
    as [[Hlt He]|(b1 & b2 & He & H1 & H2 & H3 & Hc)]; rewrite He.
  - destruct n as [|n]; [exists 0; split; [done|cbn; lia]|].
    destruct (IH n) as (k & Hk & Hlen). exists (S k).
    cbn [app take Utf8.decode]. rewrite Hlt, chr_ord, Hk.
    split; [done|]. unfold Utf8.byte_length in *.
    cbn [Str.take Utf8.encode]. rewrite He, length_app. simpl. lia.
  - destruct n as [|[|n]].
    + exists 0. split; [done|cbn; lia].
    + exists 0. cbn [app take Utf8.decode]. rewrite H1, H2.
      split; [done|cbn; lia].
    + destruct (IH n) as (k & Hk & Hlen). exists (S k).
      cbn [app take Utf8.decode]. rewrite H1, H2, H3, Hc, Hk.
      split; [done|]. unfold Utf8.byte_length in *.
      cbn [Str.take Utf8.encode]. rewrite He, length_app. simpl. lia.
Qed.

Lemma slice_to_take {A} cutoff (bs : list A) :
  exists n, slice_to cutoff bs = take n bs
            /\ ((0 <= cutoff)%Z -> n = Z.to_nat cutoff).
Proof.
  unfold slice_to. destruct (0 <=? cutoff)%Z eqn:E.
  - eexists. split; [done|]. done.
  - eexists. split; [done|]. apply Z.leb_gt in E. lia.
Qed.

Lemma forallb_take Q k s :
  Str.forallb Q s = true -> Str.forallb Q (Str.take k s) = true.
Proof.
  intros H. rewrite <- (str_take_drop s k), str_forallb_app in H.
  by apply andb_true_iff in H as [H _].
Qed.

(** *** The length cap *)

Lemma cap_filename_cases s name ext :
  splitext s = (name, ext) ->
  ((MAX_LEN_BYTES <? Z.of_nat (Utf8.byte_length s))%Z = false
   /\ cap_filename s = s)
  \/ ((MAX_LEN_BYTES <? Z.of_nat (Utf8.byte_length s))%Z = true
      /\ exists k,
           cap_filename s = Str.take k name +:+ "~" +:+ ext
           /\ ((0 <= MAX_LEN_BYTES - Z.of_nat (Utf8.byte_length ext) - 1)%Z ->
               Z.of_nat (Utf8.byte_length (Str.take k name))
               <= MAX_LEN_BYTES - Z.of_nat (Utf8.byte_length ext) - 1)%Z).
Proof.
  intros Hsplit. unfold cap_filename. rewrite Hsplit.
  destruct (MAX_LEN_BYTES <? _)%Z; [right|by left]. split; [done|].
  destruct (slice_to_take
              (MAX_LEN_BYTES - Z.of_nat (Utf8.byte_length ext) - 1)%Z
              (Utf8.encode name)) as (n & -> & Hn).
  destruct (decode_take_encode n name) as (k & -> & Hk).
  exists k. split; [done|]. intros Hpos. rewrite (Hn Hpos) in Hk. lia.
Qed.

Lemma ends_clean_app p s t :
  t <> "" -> ends_clean p (s +:+ t) = ends_clean p t.
Proof. intros H. unfold ends_clean. by rewrite str_last_app. Qed.

Lemma cap_filename_allowed s :
  Str.forallb allowed_char s = true ->
  Str.forallb allowed_char (cap_filename s) = true.
Proof.
  intros H. destruct (splitext s) as [name ext] eqn:E.
  pose proof (splitext_app _ _ _ E) as Hs.
  rewrite Hs, str_forallb_app in H. apply andb_true_iff in H as [Hn He].
  destruct (cap_filename_cases s name ext E) as [[_ ->]|[_ (k & -> & _)]].
  - by rewrite Hs, str_forallb_app, Hn, He.
  - rewrite !str_forallb_app, He, forallb_take; done.
Qed.

Lemma cap_filename_ends_clean s :
  ends_clean is_dot_or_space s = true ->
  ends_clean is_dot_or_space (cap_filename s) = true.
Proof.
  intros H. destruct (splitext s) as [name ext] eqn:E.
  pose proof (splitext_app _ _ _ E) as Hs.
  destruct (cap_filename_cases s name ext E) as [[_ ->]|[_ (k & -> & _)]];
    [done|].
  destruct ext as [|c ext].
  - by rewrite ends_clean_app.
  - rewrite <- str_app_assoc, ends_clean_app by done.
    by rewrite Hs, ends_clean_app in H.
Qed.

(** A truncated name never has a reserved stem: its stem ends with the
    truncation marker. *)
Lemma truncated_not_reserved s name ext k :
  Str.forallb (not_char "/") s = true ->
  splitext s = (name, ext) ->
  ~ reserved_stem (Str.take k name +:+ "~" +:+ ext).
Proof.
  intros Hsep Hsplit Hres. unfold reserved_stem in Hres.
  destruct (splitext (Str.take k name +:+ "~" +:+ ext)) as [a b] eqn:E.
  simpl in Hres. apply reserved_upper_plain in Hres as [Ha Hplain].
  pose proof (splitext_app _ _ _ E) as Ht.
  assert (Str.forallb (not_char "~") a = true) as Htilde.
  { clear -Hplain. induction a as [|c a IH]; [done|]. simpl in *.
    apply andb_true_iff in Hplain as [Hc Hp]. rewrite (IH Hp).
    unfold plain_char in Hc. by destruct (not_char "~" c). }
  symmetry in Ht.
  destruct (tilde_free_prefix a b _ ext Ht Htilde) as (rest & Hname & Hb).
  destruct (splitext_ext _ _ _ E) as [->|(e0 & He0 & Hdots)].
  { symmetry in Hb. apply str_app_eq_nil in Hb as [_ Hb]. done. }
  rewrite He0 in Hb. destruct rest as [|c rest]; [done|].
  rewrite str_app_cons in Hb. injection Hb as <- ->.
  rewrite str_forallb_app in Hdots.
  apply andb_true_iff in Hdots as [_ Hdots]. cbn [Str.forallb] in Hdots.
  apply andb_true_iff in Hdots as [_ Hext].
  destruct (splitext_ext _ _ _ Hsplit) as [->|(e1 & -> & _)]; [|done].
  pose proof (splitext_app _ _ _ Hsplit) as Hs.
  rewrite str_app_nil_r in Hs. subst name.
  destruct a as [|c0 a]; [done|].
  apply (splitext_has_ext s c0 a (rest +:+ Str.drop k s)); [done| | |].
  - rewrite <- (str_take_drop s k) at 1. rewrite Hname.
    by rewrite !str_app_assoc.
  - simpl in Hplain. apply andb_true_iff in Hplain as [Hc _].
    intros ->. done.
  - by rewrite Hsplit.
Qed.

(** *** The reserved-name prefix and the default name *)

Lemma guard_reserved_cases s :
  (reserved_stem s /\ guard_reserved s = "_" +:+ s)
  \/ (~ reserved_stem s /\ guard_reserved s = s).
Proof.
  unfold guard_reserved, reserved_stem.
  destruct (splitext s) as [name_part ext]. simpl.
  destruct (bool_decide_reflect (Str.upper name_part ∈ reserved_names));
    [by left|by right].
Qed.

Lemma prefixed_not_reserved s : ~ reserved_stem ("_" +:+ s).
Proof.
  unfold reserved_stem. intros H.
  pose proof (splitext_stem_nonempty ("_" +:+ s) ltac:(done)) as Hne.
  destruct (splitext ("_" +:+ s)) as [a b] eqn:E. simpl in *.
  apply splitext_app in E. apply reserved_upper_plain in H as [_ H].
  destruct a as [|c a]; [done|]. rewrite str_app_cons in E.
  injection E as <- _. done.
Qed.

Lemma guard_reserved_not_reserved s : ~ reserved_stem (guard_reserved s).
Proof.
  destruct (guard_reserved_cases s) as [[_ ->]|[H ->]]; [|done].
  apply prefixed_not_reserved.
Qed.

Lemma default_not_reserved : ~ reserved_stem DEFAULT_FILENAME.
Proof.
  unfold reserved_stem. intros H.
  apply reserved_upper_plain in H as [_ H]. by vm_compute in H.
Qed.

Lemma guard_reserved_allowed s :
  Str.forallb allowed_char s = true ->
  Str.forallb allowed_char (guard_reserved s) = true.
Proof.
  intros H. destruct (guard_reserved_cases s) as [[_ ->]|[_ ->]]; [|done].
  by rewrite str_forallb_app, H.
Qed.

Lemma guard_reserved_ends_clean s :
  ends_clean is_dot_or_space s = true ->
  ends_clean is_dot_or_space (guard_reserved s) = true.
Proof.
  intros H. destruct (guard_reserved_cases s) as [[_ ->]|[_ ->]]; [|done].
  destruct s; [done|]. by rewrite ends_clean_app.
Qed.

Lemma sanitize_filename_cases filename :
  sanitize_filename filename = DEFAULT_FILENAME
  \/ sanitize_filename filename
     = guard_reserved (cap_filename (clean_filename filename)).
Proof.
  unfold sanitize_filename. destruct (_ || _); [by left|by right].
Qed.

Lemma allowed_no_separator s :
  Str.forallb allowed_char s = true -> Str.forallb (not_char "/") s = true.
Proof.
  induction s as [|c s IH]; [done|]. simpl. rewrite !andb_true_iff.
  intros [Hc Hs]. split; [|auto]. unfold allowed_char in Hc.
  unfold not_char. by destruct (Ascii.eqb c "/"), (is_reserved_char c).
Qed.

Lemma lower_app a b : Str.lower (a +:+ b) = Str.lower a +:+ Str.lower b.
Proof.
  unfold Str.lower. induction a as [|c a IH]; [done|].
  rewrite str_app_cons. simpl. by rewrite IH.
Qed.

(** C6 (as amended): for every candidate file name the sanitized name
    contains none of the reserved characters, no path separator and no
    control character, does not end with a dot or a space, and its stem
    is not a reserved device name: a name whose stem is one is prefixed
    with an underscore.  If the cleaned name (after the replacements,
    the removals, the collapsing of blanks and the trimming) exceeds the
    cap of 200 bytes and its extension takes fewer than 200 bytes, the
    result is a prefix of the stem, the truncation marker and the
    extension, and it is within the cap. *)
Theorem sanitize_filename_safe (filename : string) :
  let result := sanitize_filename filename in
  let cleaned := clean_filename filename in
  Str.forallb allowed_char result = true
  /\ ends_clean is_dot_or_space result = true
  /\ ~ reserved_stem result
  /\ (reserved_stem (cap_filename cleaned) ->
      result = "_" +:+ cap_filename cleaned)
  /\ (forall name ext,
        splitext cleaned = (name, ext) ->
        (MAX_LEN_BYTES < Z.of_nat (Utf8.byte_length cleaned))%Z ->
        (Z.of_nat (Utf8.byte_length ext) < MAX_LEN_BYTES)%Z ->
        exists k,
          result = Str.take k name +:+ "~" +:+ ext
          /\ (Z.of_nat (Utf8.byte_length result) <= MAX_LEN_BYTES)%Z).
Proof.
  intros result cleaned.
  pose proof (clean_filename_allowed filename) as Hallowed.
  pose proof (clean_filename_ends_clean filename) as Hends.
  fold cleaned in Hallowed, Hends.
  split; [|split; [|split; [|split]]].
  - destruct (sanitize_filename_cases filename) as [H|H];
      unfold result; rewrite H; [reflexivity|].
    by apply guard_reserved_allowed, cap_filename_allowed.
  - destruct (sanitize_filename_cases filename) as [H|H];
      unfold result; rewrite H; [reflexivity|].
    by apply guard_reserved_ends_clean, cap_filename_ends_clean.
  - destruct (sanitize_filename_cases filename) as [H|H];
      unfold result; rewrite H.
    + apply default_not_reserved.
    + apply guard_reserved_not_reserved.
  - intros Hres. unfold result, sanitize_filename. fold cleaned.
    destruct (guard_reserved_cases (cap_filename cleaned))
      as [[_ ->]|[Hno _]]; [|done].
    reflexivity.
  - intros name ext Hsplit Hlong Hext.
    destruct (cap_filename_cases cleaned name ext Hsplit)
      as [[Hle _]|[_ (k & Hcap & Hlen)]].
    { apply Z.ltb_ge in Hle. lia. }
    exists k. specialize (Hlen ltac:(lia)).
    pose proof (truncated_not_reserved cleaned name ext k
                  (allowed_no_separator _ Hallowed) Hsplit) as Hno.
    assert (result = Str.take k name +:+ "~" +:+ ext) as Hresult.
    { unfold result, sanitize_filename. fold cleaned. rewrite Hcap.
      destruct (guard_reserved_cases (Str.take k name +:+ "~" +:+ ext))
        as [[Hyes _]|[_ ->]]; [done|].
      destruct (String.eqb_spec (Str.take k name +:+ "~" +:+ ext) "")
        as [Hnil|_].
      { apply str_app_eq_nil in Hnil as [_ Hnil]. done. }
      destruct (String.eqb_spec
                  (Str.lower (Str.take k name +:+ "~" +:+ ext)) ".dat")
        as [Hdat|_]; [|done].
      assert (Str.forallb (not_char "~")
                (Str.lower (Str.take k name +:+ "~" +:+ ext)) = true)
        as Hf by (by rewrite Hdat).
      rewrite lower_app, str_forallb_app in Hf.
      apply andb_true_iff in Hf as [_ Hf]. done. }
    split; [done|]. rewrite Hresult, !byte_length_app.
    change (Utf8.byte_length "~") with 1. lia.
Qed.

Lemma sanitize_filename_safe_witness :
  exists k,
    sanitize_filename (Str.repeat "x" 300 +:+ ".dat")
    = Str.take k (Str.repeat "x" 300) +:+ "~" +:+ ".dat"
    /\ (Z.of_nat (Utf8.byte_length
                    (sanitize_filename (Str.repeat "x" 300 +:+ ".dat")))
        <= MAX_LEN_BYTES)%Z.
Proof.
  apply (proj2 (proj2 (proj2 (proj2
           (sanitize_filename_safe (Str.repeat "x" 300 +:+ ".dat")))))
           (Str.repeat "x" 300) ".dat").
  - vm_compute. reflexivity.
  - vm_compute. reflexivity.
  - vm_compute. reflexivity.
Defined.

(** The claim C6 as stated fails: a candidate name of 201 bytes, three of
    them illegal characters, is over the cap, but its sanitized form is
    the 198 remaining characters, without a truncation marker. *)
Lemma long_name_without_marker :
  (MAX_LEN_BYTES < Z.of_nat (Utf8.byte_length long_illegal_name))%Z
  /\ sanitize_filename long_illegal_name = Str.repeat "a" 198
  /\ Str.contains "~" (sanitize_filename long_illegal_name) = false.
Proof. vm_compute. repeat split; reflexivity. Qed.

(** With an extension of 200 bytes or more the cut-off is negative and
    the capped name stays over the cap. *)
Lemma long_extension_over_cap :
  Utf8.byte_length (sanitize_filename long_extension_name) = 302.
Proof. vm_compute. reflexivity. Qed.

(** * Further properties of the code *)

(** ** Attribute escaping *)

Ltac split_special c :=
  destruct (Ascii.eqb_spec c "&") as [->|?];
  [|destruct (Ascii.eqb_spec c "<") as [->|?];
    [|destruct (Ascii.eqb_spec c ">") as [->|?];
      [|destruct (Ascii.eqb_spec c (chr 34)) as [->|?];
        [|destruct (Ascii.eqb_spec c "'") as [->|?]]]]].

Lemma html_escape_cons_plain c s :
  c <> "&"%char -> c <> "<"%char -> c <> ">"%char -> c <> chr 34 ->
  c <> "'"%char ->
  html_escape (String c s) = String c (html_escape s).
Proof.
  intros H1 H2 H3 H4 H5. cbn [html_escape].
  destruct (Ascii.eqb_spec c "&"); [done|].
  destruct (Ascii.eqb_spec c "<"); [done|].
  destruct (Ascii.eqb_spec c ">"); [done|].
  destruct (Ascii.eqb_spec c (chr 34)); [done|].
  destruct (Ascii.eqb_spec c "'"); [done|]. done.
Qed.

(** X1: an escaped attribute value contains no angle bracket and no
    quote of either kind, whatever the value: it cannot end the
    attribute or open a tag inside the compressed identifier. *)
Theorem escape_xml_attribute_no_markup (value : option string) :
  Str.forallb (fun c => negb (is_markup_char c))
    (escape_xml_attribute value) = true.
Proof.
  destruct value as [v|]; [|done]. simpl.
  induction v as [|c v IH]; [done|]. split_special c.
  - cbn [html_escape]. simpl. exact IH.
  - cbn [html_escape]. simpl. exact IH.
  - cbn [html_escape]. simpl. exact IH.
  - cbn [html_escape]. simpl. exact IH.
  - cbn [html_escape]. simpl. exact IH.
  - rewrite html_escape_cons_plain by done. cbn [Str.forallb].
    rewrite IH, andb_true_r. unfold is_markup_char.
    destruct (Ascii.eqb_spec c "<"); [done|].
    destruct (Ascii.eqb_spec c ">"); [done|].
    destruct (Ascii.eqb_spec c (chr 34)); [done|].
    destruct (Ascii.eqb_spec c "'"); [done|]. done.
Qed.

Lemma html_escape_cons c s :
  html_escape (String c s) = escape_piece c +:+ html_escape s.
Proof. reflexivity. Qed.

Lemma escape_piece_plain c :
  c <> "&"%char -> c <> "<"%char -> c <> ">"%char -> c <> chr 34 ->
  c <> "'"%char -> escape_piece c = String c "".
Proof.
  intros H1 H2 H3 H4 H5. unfold escape_piece.
  destruct (Ascii.eqb_spec c "&"); [done|].
  destruct (Ascii.eqb_spec c "<"); [done|].
  destruct (Ascii.eqb_spec c ">"); [done|].
  destruct (Ascii.eqb_spec c (chr 34)); [done|].
  destruct (Ascii.eqb_spec c "'"); [done|]. done.
Qed.

Lemma escape_piece_nonempty c x : escape_piece c +:+ x <> "".
Proof.
  split_special c; [done..|]. by rewrite escape_piece_plain.
Qed.

(** The pieces form a prefix code. *)
Lemma escape_piece_prefix_free c d x y :
  escape_piece c +:+ x = escape_piece d +:+ y -> c = d /\ x = y.
Proof.
  split_special c; split_special d;
    rewrite ?(escape_piece_plain c), ?(escape_piece_plain d) by done;
    intros H; cbv [escape_piece String.append] in H; simpl in H;
    try discriminate H; try (injection H as ->; done);
    try (by injection H as <-); try (by injection H as ->).
Qed.

(** X2: escaping loses nothing: two attribute values with the same
    escaped form are the same value, so two different names never get
    the same compressed identifier. *)
Theorem escape_xml_attribute_injective (a b : string) :
  escape_xml_attribute (Some a) = escape_xml_attribute (Some b) -> a = b.
Proof.
  simpl. revert b. induction a as [|c a IH]; intros [|d b] H.
  - done.
  - rewrite html_escape_cons in H. symmetry in H.
    by apply escape_piece_nonempty in H.
  - rewrite html_escape_cons in H. by apply escape_piece_nonempty in H.
  - rewrite !html_escape_cons in H.
    apply escape_piece_prefix_free in H as [-> H]. f_equal. by apply IH.
Qed.

(** ** Catalog Store and Compressor *)

Section CompressorFacts.

Context {xml : XmlLibrary}.

Lemma fold_store_tags l acc :
  (fold_left store_game l acc).2
  = acc.2 ++ (compressed_tag <$> omap usable_name l).
Proof.
  revert acc. induction l as [|e l IH]; intros acc.
  - simpl. by rewrite app_nil_r.
  - cbn [fold_left omap list_omap]. rewrite IH, store_game_usable.
    destruct (usable_name e) as [n|]; [|done].
    simpl. by rewrite <- app_assoc.
Qed.

Lemma fold_store_keys l acc n :
  is_Some ((fold_left store_game l acc).1 !! n)
  <-> is_Some (acc.1 !! n) \/ n ∈ omap usable_name l.
Proof.
  revert acc. induction l as [|e l IH]; intros acc.
  - simpl. split; [by left|]. intros [H|H]; [done|].
    by apply elem_of_nil in H.
  - cbn [fold_left omap list_omap]. rewrite IH, store_game_usable.
    destruct (usable_name e) as [m|]; [|done]. simpl.
    rewrite lookup_insert_is_Some, elem_of_cons. split.
    + intros [[->|[_ H]]|H]; auto.
    + intros [H|[->|H]]; auto.
      destruct (decide (m = n)) as [->|Hne]; auto.
Qed.

Lemma fold_store_size l acc :
  size (fold_left store_game l acc).1
  <= size acc.1 + length (omap usable_name l).
Proof.
  revert acc. induction l as [|e l IH]; intros acc; [simpl; lia|].
  cbn [fold_left omap list_omap]. etransitivity; [apply IH|].
  rewrite store_game_usable. destruct (usable_name e) as [m|]; [|lia].
  simpl. rewrite map_size_insert. destruct (acc.1 !! m); simpl; lia.
Qed.

Lemma length_omap_le {A B} (f : A -> option B) l :
  length (omap f l) <= length l.
Proof.
  induction l as [|x l IH]; [done|]. cbn [omap list_omap].
  destruct (f x); simpl; lia.
Qed.

End CompressorFacts.

(** X3: for a parsed input the compressed document is the preamble, the
    datafile root, the trimmed header and one identifier per game
    element with a usable name, in document order and with repeated
    names repeated, while elements without a name or with an empty name
    are left out; the names of these identifiers are exactly the keys of
    the store, and their number lies between the size of the store and
    the number of game elements counted. *)
Theorem compressed_document_lists_store_names {xml : XmlLibrary}
  (stem content : string) (root : Element) :
  parse content = Parsed root ->
  let catalog := parse_and_compress_dat stem content in
  let names := omap usable_name (findall_descendants "game" root) in
  exists header_xml store,
    original_header_xml catalog = Some header_xml
    /\ original_games_data catalog = Some store
    /\ compressed_dat_content catalog
       = Some (XML_PREAMBLE +:+ NL +:+ "<datafile>" +:+ NL
               +:+ Str.strip header_xml +:+ NL
               +:+ Str.join NL (compressed_tag <$> names)
               +:+ NL +:+ "</datafile>")
    /\ (forall n, is_Some (store !! n) <-> n ∈ names)
    /\ size store <= length names <= game_count_original catalog.
Proof.
  intros Hparse catalog names.
  destruct (parse_and_compress_dat_store stem content root Hparse)
    as [Hstore Hcount].
  fold catalog in Hstore, Hcount.
  assert (forall n, is_Some ((collect_games
                                (findall_descendants "game" root)).1 !! n)
                    <-> n ∈ names) as Hkeys.
  { intros n. unfold collect_games. rewrite fold_store_keys. simpl.
    rewrite lookup_empty. split; [intros [[? ?]|?]; done|by right]. }
  assert (exists header_xml,
            original_header_xml catalog = Some header_xml
            /\ compressed_dat_content catalog
               = Some (XML_PREAMBLE +:+ NL +:+ "<datafile>" +:+ NL
                       +:+ Str.strip header_xml +:+ NL
                       +:+ Str.join NL (compressed_tag <$> names)
                       +:+ NL +:+ "</datafile>")) as (header_xml & Hh & Hc).
  { pose proof (fold_store_tags (findall_descendants "game" root) (∅, []))
      as Htags. simpl in Htags. fold names in Htags.
    unfold catalog, parse_and_compress_dat. rewrite Hparse.
    unfold collect_games.
    destruct (fold_left store_game (findall_descendants "game" root) (∅, []))
      as [store tags]. simpl in Htags. subst tags.
    repeat case_match; simpl; eexists; split; reflexivity. }
  exists header_xml, (collect_games (findall_descendants "game" root)).1.
  split; [done|]. split; [done|]. split; [done|].
  split; [done|]. rewrite Hcount. split.
  - pose proof (fold_store_size (findall_descendants "game" root) (∅, []))
      as Hsize. simpl in Hsize. by rewrite map_size_empty in Hsize.
  - apply length_omap_le.
Qed.

Lemma compressed_document_lists_store_names_witness :
  let catalog := @parse_and_compress_dat Sample.library "Game Boy" "" in
  let names :=
    omap usable_name (findall_descendants "game" Sample.catalog_root) in
  exists header_xml store,
    original_header_xml catalog = Some header_xml
    /\ original_games_data catalog = Some store
    /\ compressed_dat_content catalog
       = Some (XML_PREAMBLE +:+ NL +:+ "<datafile>" +:+ NL
               +:+ Str.strip header_xml +:+ NL
               +:+ Str.join NL (compressed_tag <$> names)
               +:+ NL +:+ "</datafile>")
    /\ (forall n, is_Some (store !! n) <-> n ∈ names)
    /\ size store <= length names <= game_count_original catalog.
Proof.
  apply (@compressed_document_lists_store_names Sample.library "Game Boy" ""
           Sample.catalog_root).
  reflexivity.
Defined.

(** ** Console details *)

(** X4: whatever the raw name, the extracted maker is never empty and
    neither the maker nor the platform name has blanks around it. *)
Theorem extract_console_details_trimmed (raw_name : option string) :
  let '(maker, name) := extract_console_details raw_name in
  maker <> "" /\ Str.strip maker = maker /\ Str.strip name = name.
Proof.
  destruct raw_name as [raw|]; [|by vm_compute].
  unfold extract_console_details.
  destruct (cleaned_name_shape raw) as (_ & Hs & He).
  destruct (Str.split_once " - " (cleaned_name raw)) as [[a b]|] eqn:E.
  - apply split_once_Some in E as [Hab _].
    destruct (separator_parts_trimmed raw a b Hab) as (Hne & Ha & Hb).
    rewrite Ha, Hb. destruct a; [done|]. done.
  - split; [done|]. split; [reflexivity|]. by apply strip_id.
Qed.

(** ** Oracle Gateway *)

Lemma has_preamble_first t :
  has_preamble t = true -> exists r, t = String "<" r.
Proof.
  unfold has_preamble. destruct t as [|c r]; [done|].
  cbn [Str.startswith].
  destruct (Ascii.eqb_spec "<" c) as [<-|]; [eauto|done].
Qed.

(** X5: whatever the oracle does, one call of the gateway sends exactly
    one request; it writes no file other than the invalid-response
    artifact; and a response it returns is never empty, starts with one
    of the two preambles, has no blanks around it, and was returned
    without writing any file. *)
Theorem call_gemini_api_frame {oracle : Oracle}
  (prompt_text : string) (w : World) :
  let '(result, w') := call_gemini_api prompt_text w in
  api_calls w' = S (api_calls w)
  /\ fs_writable w' = fs_writable w
  /\ (forall k, k <> INVALID_ARTIFACT -> files w' !! k = files w !! k)
  /\ (forall t, result = Some t ->
        has_preamble t = true /\ Str.strip t = t /\ t <> ""
        /\ files w' = files w).
Proof.
  unfold call_gemini_api.
  destruct (generate_content prompt_text) as [|[[|c t]|] reason];
    try (cbn; repeat split; done).
  pose proof (normalize_response_trimmed (String c t)) as [Hs He].
  set (n := normalize_response (String c t)) in *.
  destruct (has_preamble n) eqn:Hpre; cbn [negb];
    unfold mbind, M_bind, mret, M_ret, count_api_call, print, write_file;
    cbn [console files fs_writable api_calls].
  - split; [done|]. split; [done|]. split; [done|].
    intros t' [= <-]. split; [done|]. split; [by apply strip_id|].
    split; [|done]. apply has_preamble_first in Hpre as [r ->]. done.
  - destruct (fs_writable w) eqn:Ew; cbn [files api_calls fs_writable];
      (split; [done|]); (split; [done|]); (split; [|done]).
    + intros k Hk. by rewrite lookup_insert_ne.
    + done.
Qed.

Lemma sub_no_match m r s :
  (forall k, m (Str.drop k s) = None) -> Re.sub m r s = s.
Proof.
  induction s as [|c s IH]; intros H; [done|]. rewrite sub_cons.
  pose proof (H 0) as H0. cbn [Str.drop] in H0. rewrite H0.
  f_equal. apply IH. intros k. apply (H (S k)).
Qed.

Lemma drop_suffix n s : exists pre, s = pre +:+ Str.drop n s.
Proof. exists (Str.take n s). by rewrite str_take_drop. Qed.

(** A trimmed text that does not end with a fence has no closing fence
    to remove. *)
Lemma no_closing_fence t :
  ends_clean isspace t = true ->
  (forall pre, t <> pre +:+ Fence.BACKTICKS) ->
  Re.sub Fence.close "" t = t.
Proof.
  intros Hend Hfence. apply sub_no_match. intros k. unfold Fence.close.
  destruct (drop_suffix k t) as [p1 H1].
  destruct (drop_suffix (Str.span_len isspace (Str.drop k t))
              (Str.drop k t)) as [p2 H2].
  set (r := Str.drop _ (Str.drop k t)) in *.
  destruct (String.eqb_spec r Fence.BACKTICKS) as [Hr|_].
  { exfalso. apply (Hfence (p1 +:+ p2)).
    by rewrite str_app_assoc, <- Hr, <- H2. }
  destruct (String.eqb_spec r (Fence.BACKTICKS +:+ NL)) as [Hr|_]; [|done].
  exfalso. rewrite H1, H2, Hr, <- str_app_assoc in Hend.
  by rewrite ends_clean_app in Hend.
Qed.

(** X6: a bare document passes the gateway unchanged: when the oracle
    answers with a text that starts with a preamble, does not end with a
    blank and does not end with a code fence, the gateway returns exactly
    that text. *)
Theorem bare_document_returned_unchanged {oracle : Oracle}
  (prompt_text t : string) (block_reason : option string) (w : World) :
  generate_content prompt_text = ApiAnswer (Some t) block_reason ->
  has_preamble t = true ->
  ends_clean isspace t = true ->
  (forall pre, t <> pre +:+ Fence.BACKTICKS) ->
  normalize_response t = t
  /\ (call_gemini_api prompt_text w).1 = Some t.
Proof.
  intros Hgen Hpre Hend Hfence.
  assert (normalize_response t = t) as Hnorm.
  { destruct (has_preamble_first t Hpre) as [r Hr].
    unfold normalize_response.
    assert (Str.strip t = t) as -> by (apply strip_id; [by subst|done]).
    assert (Re.sub_anchored Fence.open_xml "" t = t) as -> by (by subst).
    assert (Re.sub_anchored Fence.open_bare "" t = t) as -> by (by subst).
    rewrite no_closing_fence by done. apply strip_id; [by subst|done]. }
  split; [done|].
  assert (t <> "") as Hne.
  { destruct (has_preamble_first t Hpre) as [r ->]. done. }
  rewrite (call_gemini_api_valid prompt_text t block_reason w Hgen Hne).
  - simpl. by rewrite Hnorm.
  - by rewrite Hnorm.
Qed.

Lemma bare_answer_no_fence pre : bare_answer <> pre +:+ Fence.BACKTICKS.
Proof.
  intros H.
  assert (Str.last bare_answer = Str.last (pre +:+ Fence.BACKTICKS))
    as Hlast by (by rewrite <- H).
  rewrite str_last_app in Hlast by done. by vm_compute in Hlast.
Qed.

Lemma bare_document_returned_unchanged_witness :
  normalize_response bare_answer = bare_answer
  /\ (@call_gemini_api plain_oracle "prompt" Sample.world).1
     = Some bare_answer.
Proof.
  apply (@bare_document_returned_unchanged plain_oracle "prompt"
           bare_answer None Sample.world).
  - reflexivity.
  - reflexivity.
  - reflexivity.
  - exact bare_answer_no_fence.
Defined.

(** ** Reconstructor *)

(** X7: a reconstruction fails exactly when the oracle response is empty
    or cannot be parsed; it never asks the oracle, it writes no file when
    it succeeds or when the response is empty, and on a response that
    cannot be parsed the only file it may write is the failed-response
    artifact, which then holds the response as it was received. *)
Theorem reconstruct_failure_cases {xml : XmlLibrary}
  (ai hdr : string) (store : gmap string string) (w : World) :
  let '(result, w') := reconstruct_filtered_dat ai hdr store w in
  (result = None
   <-> ai = "" \/ fromstring (ai_response_clean ai) = None)
  /\ api_calls w' = api_calls w
  /\ fs_writable w' = fs_writable w
  /\ (forall k, k <> FAILED_ARTIFACT -> files w' !! k = files w !! k)
  /\ (result <> None \/ ai = "" -> files w' = files w)
  /\ (result = None -> ai <> "" -> fs_writable w = true ->
      files w' !! FAILED_ARTIFACT = Some ai).
Proof.
  destruct (String.eqb_spec ai "") as [->|Hne].
  { cbn. repeat split; auto; try done. }
  destruct (fromstring (ai_response_clean ai)) as [ai_root|] eqn:Hparse.
  - rewrite (reconstruct_parsed ai hdr store ai_root w Hne Hparse).
    cbv zeta. cbn [files api_calls fs_writable log_events].
    repeat split; try done. intros [H|H]; done.
  - unfold reconstruct_filtered_dat.
    destruct (String.eqb_spec ai "") as [?|_]; [done|].
    fold (ai_response_clean ai). rewrite Hparse.
    unfold mbind, M_bind, mret, M_ret, print, write_file.
    cbn [console files fs_writable api_calls].
    destruct (fs_writable w) eqn:Ew;
      cbn [console files fs_writable api_calls];
      (split; [split; auto|]); (split; [done|]); (split; [done|]);
      (split; [|split]); try done.
    + intros k Hk. by rewrite lookup_insert_ne.
    + intros [H|H]; done.
    + intros _ _ _. apply lookup_insert_eq.
Qed.

(** X8: the loop over the selected names keeps its books: each name is
    counted once, as found or as missing, and one part is added to the
    document for each name found and none for the others. *)
Theorem resolve_entries_counts (store : gmap string string)
  (names parts : list string) (found missing : nat) (w : World) :
  let '(parts', found', missing', w') :=
    resolve_entries store names (parts, found, missing) w in
  found' + missing' = found + missing + length names
  /\ length parts' = length parts + (found' - found)
  /\ found <= found' /\ missing <= missing'
  /\ files w' = files w /\ api_calls w' = api_calls w.
Proof.
  rewrite resolve_entries_spec. cbn [files api_calls log_events].
  rewrite length_app.
  assert (length (omap (emitted store) names)
          + length (List.filter (unresolved store) names) = length names)
    as Hsum.
  { induction names as [|n names IH]; [done|].
    cbn [omap list_omap List.filter]. unfold unresolved at 1.
    destruct (emitted store n); simpl; lia. }
  repeat split; lia.
Qed.

(** ** Header mutation *)

Lemma filter_middle_out {A} (q : A -> bool) pre x post :
  q x = false -> List.filter q (pre ++ x :: post) = List.filter q (pre ++ post).
Proof. intros H. rewrite !List.filter_app. simpl. by rewrite H. Qed.

Lemma mutate_description_frame h :
  tag (mutate_description h) = tag h
  /\ attrib (mutate_description h) = attrib h
  /\ text (mutate_description h) = text h
  /\ tail (mutate_description h) = tail h
  /\ List.filter is_other_child (children (mutate_description h))
     = List.filter is_other_child (children h).
Proof.
  unfold mutate_description.
  destruct (find "description" (children h)) as [[i d]|] eqn:E.
  - destruct (negb _); [|done]. simpl. repeat split; try done.
    destruct (find_split _ _ _ _ E) as (pre & post & -> & <- & _ & Hd).
    replace (length pre) with (length pre + 0) by lia.
    rewrite insert_app_r. simpl.
    rewrite !filter_middle_out; [done| |].
    + unfold is_other_child, has_tag. rewrite Hd. done.
    + unfold is_other_child, has_tag. simpl. rewrite Hd. done.
  - simpl. repeat split; try done.
    rewrite (filter_middle_out _ (children h) _ []) by done.
    by rewrite app_nil_r.
Qed.

(** X9: the header mutation touches nothing but the description and the
    provenance tag: the tag, attributes, text and tail of the header are
    kept, and its other children are all kept, in their order. *)
Theorem mutate_header_keeps_other_children (h : Element) :
  tag (mutate_header h) = tag h
  /\ attrib (mutate_header h) = attrib h
  /\ text (mutate_header h) = text h
  /\ tail (mutate_header h) = tail h
  /\ List.filter is_other_child (children (mutate_header h))
     = List.filter is_other_child (children h).
Proof.
  destruct (mutate_description_frame h) as (H1 & H2 & H3 & H4 & H5).
  unfold mutate_header. cbn [tag attrib text tail children set_children].
  repeat split; try done. rewrite <- H5. unfold list_insert_at.
  rewrite filter_middle_out by done. rewrite take_drop.
  unfold remove_existing_aknf.
  destruct (find "geminiaknf" (children (mutate_description h)))
    as [[i g]|] eqn:E; [|done].
  destruct (find_split _ _ _ _ E) as (pre & post & -> & <- & _ & Hg).
  rewrite delete_middle. symmetry. apply filter_middle_out.
  unfold is_other_child, has_tag. rewrite Hg. done.
Qed.

Lemma set_children_same h : set_children h (children h) = h.
Proof. by destruct h. Qed.

Lemma mutate_description_marked h t :
  description_text h = Some (Some t) ->
  Str.contains MARKER t = true ->
  mutate_description h = h.
Proof.
  unfold description_text, mutate_description.
  destruct (find "description" (children h)) as [[i d]|]; [|done].
  intros [= Ht] Hc. rewrite Ht.
  destruct (String.eqb t "") eqn:E.
  - apply String.eqb_eq in E. by subst.
  - by rewrite marker_strip_contains.
Qed.

(** X10: on a header with at most one prior provenance tag, which is
    every header this program has written, the whole header mutation is
    idempotent: mutating the mutated header changes nothing. *)
Theorem mutate_header_idempotent (h : Element) :
  count_tag "geminiaknf" (children h) <= 1 ->
  mutate_header (mutate_header h) = mutate_header h.
Proof.
  intros Hcount.
  destruct (mutate_header_has_marker h) as (t & Ht & Hc).
  pose proof (mutate_description_marked _ t Ht Hc) as Hdesc.
  unfold mutate_header at 1. rewrite Hdesc.
  set (cs2 := remove_existing_aknf (children (mutate_description h))).
  assert (children (mutate_header h)
          = take (insert_index cs2) cs2 ++ aknf_tag
              :: drop (insert_index cs2) cs2) as Hcs by done.
  assert (children_tagged "geminiaknf" cs2 = []) as Hnone.
  { apply length_zero_iff_nil. fold (count_tag "geminiaknf" cs2).
    unfold cs2. rewrite remove_existing_aknf_count. unfold count_tag.
    rewrite mutate_description_tagged by done.
    unfold count_tag in Hcount. lia. }
  assert (remove_existing_aknf (children (mutate_header h)) = cs2) as Hrem.
  { unfold remove_existing_aknf. rewrite Hcs.
    rewrite (find_middle "geminiaknf" (take (insert_index cs2) cs2)
               aknf_tag (drop (insert_index cs2) cs2)); [|  |done].
    - by rewrite delete_middle, take_drop.
    - apply find_None_tagged.
      rewrite <- (take_drop (insert_index cs2) cs2),
        children_tagged_app in Hnone.
      by apply app_eq_nil in Hnone as [? _]. }
  rewrite Hrem.
  change (list_insert_at (insert_index cs2) aknf_tag cs2)
    with (children (mutate_header h)).
  apply set_children_same.
Qed.

Lemma mutate_header_idempotent_witness :
  mutate_header (mutate_header Sample.header) = mutate_header Sample.header.
Proof.
  apply (mutate_header_idempotent Sample.header). vm_compute. lia.
Defined.

Lemma escape_xml_attribute_injective_witness :
  "Tom & Jerry <2>" = "Tom & Jerry <2>".
Proof.
  apply (escape_xml_attribute_injective "Tom & Jerry <2>" "Tom & Jerry <2>").
  reflexivity.
Defined.

(** ** Output naming *)

Lemma byte_length_cons c s :
  Utf8.byte_length (String c s)
  = length (Utf8.encode_char c) + Utf8.byte_length s.
Proof. unfold Utf8.byte_length. simpl. by rewrite length_app. Qed.

Lemma encode_char_length c :
  1 <= length (Utf8.encode_char c) <= 2.
Proof.
  destruct (encode_char_cases c) as [[_ ->]|(b1 & b2 & -> & _)];
    simpl; lia.
Qed.

(** Decoding the first [n] bytes keeps as many whole characters as fit
    into [n] bytes. *)
Lemma decode_take_encode_longest n s :
  exists k, Utf8.decode (take n (Utf8.encode s)) = Str.take k s
            /\ Utf8.byte_length (Str.take k s) <= n
            /\ (String.length s <= k
                \/ n < Utf8.byte_length (Str.take (S k) s)).
Proof.
  revert n. induction s as [|c s IH]; intros n.
  { exists 0. simpl. rewrite take_nil. repeat split; [cbn; lia|by left]. }
  cbn [Utf8.encode]. pose proof (encode_char_length c) as Hlen.
  destruct (encode_char_cases c)
    as [[Hlt He]|(b1 & b2 & He & H1 & H2 & H3 & Hc)]; rewrite He in *.
  - destruct n as [|n].
    + exists 0. split; [done|]. split; [cbn; lia|]. right.
      cbn [Str.take]. rewrite byte_length_cons, He. simpl. lia.
    + destruct (IH n) as (k & Hk & Hle & Hmax). exists (S k).
      cbn [app take Utf8.decode]. rewrite Hlt, chr_ord, Hk.
      split; [done|]. cbn [Str.take String.length].
      rewrite !byte_length_cons, He. simpl. split; [lia|].
      destruct Hmax as [Hmax|Hmax]; [left; lia|right].
      cbn [Str.take] in Hmax. lia.
  - destruct n as [|[|n]].
    + exists 0. split; [done|]. split; [cbn; lia|]. right.
      cbn [Str.take]. rewrite byte_length_cons, He. simpl. lia.
    + exists 0. cbn [app take Utf8.decode]. rewrite H1, H2.
      split; [done|]. split; [cbn; lia|]. right.
      cbn [Str.take]. rewrite byte_length_cons, He. simpl. lia.
    + destruct (IH n) as (k & Hk & Hle & Hmax). exists (S k).
      cbn [app take Utf8.decode]. rewrite H1, H2, H3, Hc, Hk.
      split; [done|]. cbn [Str.take String.length].
      rewrite !byte_length_cons, He. simpl. split; [lia|].
      destruct Hmax as [Hmax|Hmax]; [left; lia|right].
      cbn [Str.take] in Hmax. lia.
Qed.

Lemma str_take_all k s : String.length s <= k -> Str.take k s = s.
Proof.
  revert k. induction s as [|c s IH]; intros [|k] H; simpl in *;
    try done; try lia.
  rewrite IH; [done|lia].
Qed.

(** X11: when the cap applies and the extension takes fewer than 200
    bytes, the capped name is a prefix of the stem made of whole
    characters, the truncation marker and the extension; it fits into the
    cap, and it keeps as many characters of the stem as fit: with one
    more character it would exceed the cap. *)
Theorem cap_filename_longest_prefix (s name ext : string) :
  splitext s = (name, ext) ->
  (MAX_LEN_BYTES < Z.of_nat (Utf8.byte_length s))%Z ->
  (Z.of_nat (Utf8.byte_length ext) < MAX_LEN_BYTES)%Z ->
  exists k,
    cap_filename s = Str.take k name +:+ "~" +:+ ext
    /\ k < String.length name
    /\ (Z.of_nat (Utf8.byte_length (cap_filename s)) <= MAX_LEN_BYTES)%Z
    /\ (MAX_LEN_BYTES
        < Z.of_nat (Utf8.byte_length
                      (Str.take (S k) name +:+ "~" +:+ ext)))%Z.
Proof.
  intros Hsplit Hlong Hext. unfold cap_filename. rewrite Hsplit.
  destruct (MAX_LEN_BYTES <? _)%Z eqn:E; [|apply Z.ltb_ge in E; lia].
  destruct (slice_to_take
              (MAX_LEN_BYTES - Z.of_nat (Utf8.byte_length ext) - 1)%Z
              (Utf8.encode name)) as (n & -> & Hn).
  specialize (Hn ltac:(lia)).
  destruct (decode_take_encode_longest n name) as (k & -> & Hle & Hmax).
  pose proof (splitext_app _ _ _ Hsplit) as Hs.
  rewrite Hs, byte_length_app in Hlong.
  unfold MAX_LEN_BYTES in *.
  assert (k < String.length name) as Hk.
  { destruct (Nat.lt_ge_cases k (String.length name)) as [|Hge]; [done|].
    rewrite (str_take_all _ _ Hge) in Hle. lia. }
  exists k. split; [done|]. split; [done|].
  rewrite !byte_length_app. change (Utf8.byte_length "~") with 1.
  split; [lia|]. destruct Hmax as [Hmax|Hmax]; lia.
Qed.

Lemma cap_filename_longest_prefix_witness :
  exists k,
    cap_filename (Str.repeat "x" 300 +:+ ".dat")
    = Str.take k (Str.repeat "x" 300) +:+ "~" +:+ ".dat"
    /\ k < String.length (Str.repeat "x" 300)
    /\ (Z.of_nat (Utf8.byte_length
                    (cap_filename (Str.repeat "x" 300 +:+ ".dat")))
        <= MAX_LEN_BYTES)%Z
    /\ (MAX_LEN_BYTES
        < Z.of_nat (Utf8.byte_length
                      (Str.take (S k) (Str.repeat "x" 300)
                       +:+ "~" +:+ ".dat")))%Z.
Proof.
  apply (cap_filename_longest_prefix (Str.repeat "x" 300 +:+ ".dat")
           (Str.repeat "x" 300) ".dat").
  - vm_compute. reflexivity.
  - vm_compute. reflexivity.
  - vm_compute. reflexivity.
Defined.

(** *** Names that sanitization leaves alone *)

Lemma tidy_spec s :
  tidy s = true <->
  Str.forallb allowed_char s = true /\ Str.forallb plain_blank s = true
  /\ no_adjacent_blank s = true /\ starts_clean isspace s = true
  /\ ends_clean is_dot_or_space s = true.
Proof. unfold tidy. rewrite !andb_true_iff. tauto. Qed.

Lemma forallb_impl (P Q : ascii -> bool) s :
  (forall c, P c = true -> Q c = true) ->
  Str.forallb P s = true -> Str.forallb Q s = true.
Proof.
  intros H. induction s as [|c s IH]; [done|]. simpl.
  rewrite !andb_true_iff. intros [Hc Hs]. auto.
Qed.

Lemma forallb_last P s c :
  Str.forallb P s = true -> Str.last s = Some c -> P c = true.
Proof.
  induction s as [|d s IH]; [done|]. simpl.
  rewrite andb_true_iff. intros [Hd Hs]. destruct s as [|e s].
  - by intros [= <-].
  - by apply IH.
Qed.

Lemma map_id_on f s :
  Str.forallb (fun c => Ascii.eqb (f c) c) s = true -> Str.map f s = s.
Proof.
  induction s as [|c s IH]; [done|]. simpl. rewrite andb_true_iff.
  intros [Hc Hs]. apply Ascii.eqb_eq in Hc. by rewrite Hc, IH.
Qed.

Lemma filter_id_on q s : Str.forallb q s = true -> Str.filter q s = s.
Proof.
  induction s as [|c s IH]; [done|]. simpl. rewrite andb_true_iff.
  intros [Hc Hs]. by rewrite Hc, IH.
Qed.

Lemma allowed_char_facts c :
  allowed_char c = true ->
  Ascii.eqb (if Ascii.eqb c "/" then "-"%char else c) c = true
  /\ Ascii.eqb (if Ascii.eqb c "\" then "-"%char else c) c = true
  /\ negb (is_reserved_char c) = true
  /\ negb (is_control_char c) = true.
Proof.
  unfold allowed_char. rewrite !andb_true_iff. intros [[[H1 H2] H3] H4].
  destruct (Ascii.eqb c "/"); [done|]. destruct (Ascii.eqb c "\"); [done|].
  by rewrite Ascii.eqb_refl.
Qed.

Lemma starts_clean_span_len p s :
  starts_clean p s = true -> Str.span_len p s = 0.
Proof.
  destruct s as [|c s]; [done|]. unfold starts_clean. simpl.
  by destruct (p c).
Qed.

Lemma sub_spaces1_tidy s :
  Str.forallb plain_blank s = true -> no_adjacent_blank s = true ->
  Re.sub Re.spaces1 " " s = s.
Proof.
  induction s as [|c s IH]; [done|]. cbn [Str.forallb no_adjacent_blank].
  rewrite !andb_true_iff. intros [Hc Hs] [Hadj Hn].
  rewrite sub_cons.
  assert (Re.spaces1 (String c s)
          = if isspace c then Some (S (Str.span_len isspace s)) else None)
    as ->.
  { unfold Re.spaces1. cbn [Str.span_len]. by destruct (isspace c). }
  destruct (isspace c) eqn:Ec; [|by rewrite (IH Hs Hn)].
  simpl in Hadj. apply negb_true_iff, negb_false_iff in Hadj.
  rewrite (starts_clean_span_len _ _ Hadj). cbn [Str.drop].
  unfold plain_blank in Hc. rewrite Ec in Hc. simpl in Hc.
  apply Ascii.eqb_eq in Hc. subst c. by rewrite (IH Hs Hn).
Qed.

Lemma tidy_ends_clean_isspace s :
  Str.forallb plain_blank s = true ->
  ends_clean is_dot_or_space s = true -> ends_clean isspace s = true.
Proof.
  unfold ends_clean. intros Hall Hend.
  destruct (Str.last s) as [c|] eqn:E; [|done].
  pose proof (forallb_last _ _ _ Hall E) as Hc. unfold plain_blank in Hc.
  destruct (isspace c); [|done]. simpl in Hc.
  apply Ascii.eqb_eq in Hc. by subst c.
Qed.

Lemma clean_filename_tidy_id s : tidy s = true -> clean_filename s = s.
Proof.
  intros H. apply tidy_spec in H as (Hall & Hblank & Hadj & Hs & He).
  unfold clean_filename, Str.replace_char.
  rewrite (map_id_on _ s)
    by (eapply forallb_impl; [|exact Hall];
        intros c Hc; by apply allowed_char_facts in Hc as (? & _)).
  rewrite (map_id_on _ s)
    by (eapply forallb_impl; [|exact Hall];
        intros c Hc; by apply allowed_char_facts in Hc as (_ & ? & _)).
  rewrite !sub_one_of_filter.
  rewrite (filter_id_on _ s)
    by (eapply forallb_impl; [|exact Hall];
        intros c Hc; by apply allowed_char_facts in Hc as (_ & _ & ? & _)).
  rewrite (filter_id_on _ s)
    by (eapply forallb_impl; [|exact Hall];
        intros c Hc; by apply allowed_char_facts in Hc as (_ & _ & _ & ?)).
  rewrite sub_spaces1_tidy by done.
  rewrite strip_id by (try done; by apply tidy_ends_clean_isspace).
  by apply rstrip_by_id.
Qed.

(** X12: a name that is already safe is returned as it is: allowed
    characters only, single plain spaces, no blank in front, no dot or
    space at the end, at most 200 bytes, a stem that is no reserved
    device name, not empty and not just the extension. *)
Theorem sanitize_filename_fixes_safe_names (filename : string) :
  tidy filename = true ->
  (Z.of_nat (Utf8.byte_length filename) <= MAX_LEN_BYTES)%Z ->
  ~ reserved_stem filename ->
  filename <> "" ->
  Str.lower filename <> ".dat" ->
  sanitize_filename filename = filename.
Proof.
  intros Htidy Hlen Hres Hne Hdat. unfold sanitize_filename.
  rewrite (clean_filename_tidy_id _ Htidy).
  assert (cap_filename filename = filename) as ->.
  { unfold cap_filename.
    destruct (MAX_LEN_BYTES <? _)%Z eqn:E; [|done].
    apply Z.ltb_lt in E. lia. }
  destruct (guard_reserved_cases filename) as [[Hyes _]|[_ ->]]; [done|].
  destruct (String.eqb_spec filename ""); [done|].
  destruct (String.eqb_spec (Str.lower filename) ".dat"); done.
Qed.

Lemma sanitize_filename_fixes_safe_names_witness :
  sanitize_filename "Nintendo - Game Boy (GeminiAKNF 1.0.15).dat"
  = "Nintendo - Game Boy (GeminiAKNF 1.0.15).dat".
Proof.
  apply sanitize_filename_fixes_safe_names.
  - vm_compute. reflexivity.
  - vm_compute. discriminate.
  - intros H. apply reserved_upper_plain in H as [_ H]. by vm_compute in H.
  - discriminate.
  - vm_compute. discriminate.
Defined.

(** *** The provenance mark in the output name *)

Lemma str_map_app f a b : Str.map f (a +:+ b) = Str.map f a +:+ Str.map f b.
Proof.
  induction a as [|c a IH]; [done|]. rewrite str_app_cons. simpl.
  by rewrite IH.
Qed.

Lemma str_filter_app q a b :
  Str.filter q (a +:+ b) = Str.filter q a +:+ Str.filter q b.
Proof.
  induction a as [|c a IH]; [done|]. rewrite str_app_cons. simpl.
  rewrite IH. by destruct (q c).
Qed.

Lemma span_len_app_clean p x t :
  starts_clean p t = true -> Str.span_len p (x +:+ t) = Str.span_len p x.
Proof.
  intros Ht. induction x as [|c x IH].
  - by apply starts_clean_span_len.
  - rewrite str_app_cons. simpl. by rewrite IH.
Qed.

Lemma span_len_le p s : Str.span_len p s <= String.length s.
Proof.
  induction s as [|c s IH]; [done|]. simpl. destruct (p c); simpl; lia.
Qed.

Lemma str_drop_app_le n x t :
  n <= String.length x -> Str.drop n (x +:+ t) = Str.drop n x +:+ t.
Proof.
  revert x. induction n as [|n IH]; intros [|c x] H; try done.
  - simpl in H. lia.
  - rewrite str_app_cons. simpl. apply IH. simpl in H. lia.
Qed.

(** Collapsing runs of blanks works on the two sides of a place where
    the right side starts with no blank. *)
Lemma sub_spaces1_app r x t :
  starts_clean isspace t = true ->
  Re.sub Re.spaces1 r (x +:+ t)
  = Re.sub Re.spaces1 r x +:+ Re.sub Re.spaces1 r t.
Proof.
  intros Ht. remember (String.length x) as n eqn:Hn.
  assert (String.length x <= n) as Hle by lia. clear Hn.
  revert x Hle. induction n as [|n IH]; intros [|c x] Hle; try done.
  { simpl in Hle. lia. }
  simpl in Hle. rewrite str_app_cons, !sub_cons.
  assert (Re.spaces1 (String c (x +:+ t)) = Re.spaces1 (String c x)) as ->.
  { unfold Re.spaces1. cbn [Str.span_len].
    by rewrite (span_len_app_clean _ _ _ Ht). }
  assert (Re.spaces1 (String c x)
          = if isspace c then Some (S (Str.span_len isspace x)) else None)
    as ->.
  { unfold Re.spaces1. cbn [Str.span_len]. by destruct (isspace c). }
  destruct (isspace c).
  - pose proof (span_len_le isspace x) as Hs.
    pose proof (str_drop_length_le x (Str.span_len isspace x)) as Hd.
    rewrite str_drop_app_le by done.
    rewrite IH by lia. by rewrite str_app_assoc.
  - rewrite IH by lia. by rewrite str_app_cons.
Qed.

Lemma output_filename_base_tail maker name :
  output_filename_base maker name
  = (maker +:+ " - " +:+ name +:+ " ") +:+ MARK_TAIL.
Proof.
  unfold output_filename_base. rewrite !str_app_assoc.
  assert (" (GeminiAKNF " +:+ SCRIPT_VERSION +:+ ").dat" = " " +:+ MARK_TAIL)
    as -> by reflexivity.
  done.
Qed.

Lemma clean_filename_tail x :
  exists y, clean_filename (x +:+ MARK_TAIL) = y +:+ MARK_TAIL.
Proof.
  unfold clean_filename, Str.replace_char.
  rewrite !str_map_app, !sub_one_of_filter, !str_filter_app.
  rewrite sub_spaces1_app by reflexivity.
  set (y := Re.sub Re.spaces1 " " _).
  assert (Re.sub Re.spaces1 " "
            (Str.filter (fun c => negb (is_control_char c))
               (Str.filter (fun c => negb (is_reserved_char c))
                  (Str.map (fun c => if Ascii.eqb c "\" then "-"%char else c)
                     (Str.map (fun c => if Ascii.eqb c "/" then "-"%char else c)
                        MARK_TAIL))))
          = MARK_TAIL) as -> by (vm_compute; reflexivity).
  unfold Str.strip.
  destruct (lstrip_by_keeps isspace y MARK_TAIL "") as [y' Hy'];
    [discriminate|reflexivity|].
  rewrite !str_app_nil_r in Hy'. rewrite Hy'.
  rewrite rstrip_by_app_nonempty by (vm_compute; discriminate).
  assert (Str.rstrip_by isspace MARK_TAIL = MARK_TAIL) as ->
    by (vm_compute; reflexivity).
  rewrite rstrip_by_app_nonempty by (vm_compute; discriminate).
  assert (Str.rstrip_by is_dot_or_space MARK_TAIL = MARK_TAIL) as ->
    by (vm_compute; reflexivity).
  by exists y'.
Qed.

Lemma str_length_map f s : String.length (Str.map f s) = String.length s.
Proof. induction s as [|c s IH]; [done|]. simpl. by rewrite IH. Qed.

Lemma contains_tail z :
  Str.contains PROVENANCE_MARK (z +:+ MARK_TAIL) = true.
Proof.
  apply contains_spec. exists z, (" " +:+ SCRIPT_VERSION +:+ ").dat").
  reflexivity.
Qed.

Lemma tail_not_short z :
  z +:+ MARK_TAIL <> "" /\ Str.lower (z +:+ MARK_TAIL) <> ".dat".
Proof.
  split.
  - intros H. by apply str_app_eq_nil in H as [_ H].
  - intros H. apply (f_equal String.length) in H.
    unfold Str.lower in H. rewrite str_length_map, str_length_app in H.
    vm_compute (String.length MARK_TAIL) in H. simpl in H. lia.
Qed.

(** The output name of a run whose cleaned name is within the cap ends
    with the tail that starts at the provenance mark. *)
Lemma sanitize_output_name_tail maker name :
  (Z.of_nat (Utf8.byte_length
               (clean_filename (output_filename_base maker name)))
   <= MAX_LEN_BYTES)%Z ->
  exists z,
    sanitize_filename (output_filename_base maker name) = z +:+ MARK_TAIL.
Proof.
  intros Hlen. unfold sanitize_filename.
  rewrite output_filename_base_tail in *.
  destruct (clean_filename_tail (maker +:+ " - " +:+ name +:+ " "))
    as [y Hy].
  rewrite Hy in *.
  assert (cap_filename (y +:+ MARK_TAIL) = y +:+ MARK_TAIL) as ->.
  { unfold cap_filename.
    destruct (MAX_LEN_BYTES <? _)%Z eqn:E; [|done].
    apply Z.ltb_lt in E. lia. }
  assert (exists z, guard_reserved (y +:+ MARK_TAIL) = z +:+ MARK_TAIL)
    as [z ->].
  { destruct (guard_reserved_cases (y +:+ MARK_TAIL)) as [[_ ->]|[_ ->]].
    - exists ("_" +:+ y). by rewrite str_app_assoc.
    - by exists y. }
  destruct (tail_not_short z) as [H1 H2].
  destruct (String.eqb_spec (z +:+ MARK_TAIL) ""); [done|].
  destruct (String.eqb_spec (Str.lower (z +:+ MARK_TAIL)) ".dat"); [done|].
  by exists z.
Qed.

(** X13: when the cleaned output name is within the length cap, the
    name a run saves under still contains the provenance mark, so the
    choice of files of a later batch run leaves it out. *)
Theorem output_name_keeps_mark (maker name : string) :
  (Z.of_nat (Utf8.byte_length
               (clean_filename (output_filename_base maker name)))
   <= MAX_LEN_BYTES)%Z ->
  Str.contains PROVENANCE_MARK
    (sanitize_filename (output_filename_base maker name)) = true
  /\ is_candidate (sanitize_filename (output_filename_base maker name))
     = false.
Proof.
  intros Hlen. destruct (sanitize_output_name_tail _ _ Hlen) as [z Hz].
  unfold is_candidate. rewrite Hz, contains_tail. done.
Qed.

Lemma output_name_keeps_mark_witness :
  Str.contains PROVENANCE_MARK
    (sanitize_filename (output_filename_base "Nintendo" "Game Boy")) = true
  /\ is_candidate
       (sanitize_filename (output_filename_base "Nintendo" "Game Boy"))
     = false.
Proof.
  apply output_name_keeps_mark. vm_compute. discriminate.
Defined.

(** *** The choice of the files of a batch run *)

Lemma str_endswith_spec suffix s :
  str_endswith suffix s = true <-> exists pre, s = pre +:+ suffix.
Proof.
  unfold str_endswith. split.
  - destruct (String.length suffix <=? String.length s); [|done].
    intros H. apply String.eqb_eq in H.
    exists (Str.take (String.length s - String.length suffix) s).
    pose proof (str_take_drop s (String.length s - String.length suffix))
      as Hs.
    by rewrite H in Hs.
  - intros [pre ->]. rewrite str_length_app.
    destruct (Nat.leb_spec (String.length suffix)
                (String.length pre + String.length suffix)); [|lia].
    replace (String.length pre + String.length suffix
             - String.length suffix) with (String.length pre) by lia.
    rewrite str_drop_app_length. apply String.eqb_refl.
Qed.

Lemma str_app_inv_tail a b s t :
  String.length s = String.length t -> a +:+ s = b +:+ t -> s = t.
Proof.
  intros Hl H.
  assert (String.length a = String.length b) as Hab.
  { apply (f_equal String.length) in H. rewrite !str_length_app in H. lia. }
  rewrite <- (str_drop_app_length a s), H, Hab.
  apply str_drop_app_length.
Qed.

Lemma diagnostic_suffix_ends_xml suffix :
  suffix ∈ DIAGNOSTIC_SUFFIXES -> exists front, suffix = front +:+ ".xml".
Proof.
  unfold DIAGNOSTIC_SUFFIXES. rewrite !elem_of_cons, elem_of_nil.
  intros [->|[->|[->|[->|[->|[]]]]]].
  - by exists "_compressed".
  - by exists "_ai_response".
  - by exists "failed_ai_response_games".
  - by exists "invalid_ai_response_start".
  - by exists "failed_ai_response".
Qed.

(** No name with the extension of a DAT file, in whatever case, ends
    with one of the diagnostic suffixes. *)
Lemma dat_name_no_diagnostic_suffix name :
  str_endswith ".dat" (Str.lower name) = true ->
  existsb (fun suffix => str_endswith suffix name) DIAGNOSTIC_SUFFIXES
  = false.
Proof.
  intros Hdat. apply not_true_is_false. intros H.
  apply existsb_exists in H as (suffix & Hin & Hend).
  apply list_elem_of_In, diagnostic_suffix_ends_xml in Hin as [front ->].
  apply str_endswith_spec in Hend as [pre ->].
  apply str_endswith_spec in Hdat as [pre' Hdat].
  rewrite <- str_app_assoc, lower_app in Hdat.
  by apply str_app_inv_tail in Hdat.
Qed.

(** X14: the files of a batch run.  The candidates are found with the
    pattern for DAT files, so their names end in the DAT extension (in
    whatever case); for such a list the diagnostic suffixes exclude
    nothing: the run processes exactly the names without the provenance
    mark, each as often as it is listed, in ascending order of name. *)
Theorem select_candidates_unmarked_sorted (all_dats : list string) :
  Forall (fun name => str_endswith ".dat" (Str.lower name) = true) all_dats ->
  select_candidates all_dats
    ≡ₚ List.filter (fun name => negb (Str.contains PROVENANCE_MARK name))
         all_dats
  /\ Sorted String.le (select_candidates all_dats).
Proof.
  intros Hdat. split; [|apply (Sorted_merge_sort String.le)].
  unfold select_candidates. rewrite merge_sort_Permutation.
  induction Hdat as [|name l Hname _ IH]; [done|].
  simpl. unfold is_candidate at 1.
  rewrite (dat_name_no_diagnostic_suffix _ Hname), andb_true_r.
  destruct (negb (Str.contains PROVENANCE_MARK name)); [|done].
  by rewrite IH.
Qed.

Lemma select_candidates_unmarked_sorted_witness :
  select_candidates
    ["Sega - Mega Drive.dat"; "Atari - 2600.DAT";
     "Atari - 2600 (GeminiAKNF 1.0.15).dat"]
    ≡ₚ List.filter (fun name => negb (Str.contains PROVENANCE_MARK name))
         ["Sega - Mega Drive.dat"; "Atari - 2600.DAT";
          "Atari - 2600 (GeminiAKNF 1.0.15).dat"]
  /\ Sorted String.le
       (select_candidates
          ["Sega - Mega Drive.dat"; "Atari - 2600.DAT";
           "Atari - 2600 (GeminiAKNF 1.0.15).dat"]).
Proof.
  apply select_candidates_unmarked_sorted.
  repeat (constructor; [vm_compute; reflexivity|]). constructor.
Defined.

(** ** Pipeline Orchestrator *)

Lemma call_gemini_api_effects {oracle : Oracle} prompt_text w :
  api_calls (call_gemini_api prompt_text w).2 = S (api_calls w)
  /\ fs_writable (call_gemini_api prompt_text w).2 = fs_writable w
  /\ (forall k, k <> INVALID_ARTIFACT ->
        files (call_gemini_api prompt_text w).2 !! k = files w !! k)
  /\ ((call_gemini_api prompt_text w).1 <> None ->
      files (call_gemini_api prompt_text w).2 = files w).
Proof.
  unfold call_gemini_api.
  destruct (generate_content prompt_text) as [|[[|c t]|] reason];
    try (cbn; repeat split; done).
  set (n := normalize_response (String c t)).
  destruct (has_preamble n) eqn:Hpre; cbn [negb];
    unfold mbind, M_bind, mret, M_ret, count_api_call, print, write_file;
    cbn [console files fs_writable api_calls].
  - repeat split; done.
  - destruct (fs_writable w) eqn:Ew; cbn [files api_calls fs_writable fst snd];
      (split; [done|]); (split; [done|]); (split; [|done]).
    + intros k Hk. by rewrite lookup_insert_ne.
    + done.
Qed.

Lemma reconstruct_effects {xml : XmlLibrary} ai hdr store w :
  api_calls (reconstruct_filtered_dat ai hdr store w).2 = api_calls w
  /\ fs_writable (reconstruct_filtered_dat ai hdr store w).2 = fs_writable w
  /\ (forall k, k <> FAILED_ARTIFACT ->
        files (reconstruct_filtered_dat ai hdr store w).2 !! k
        = files w !! k)
  /\ ((reconstruct_filtered_dat ai hdr store w).1 <> None ->
      files (reconstruct_filtered_dat ai hdr store w).2 = files w).
Proof.
  destruct (String.eqb_spec ai "") as [->|Hne].
  { cbn. repeat split; auto; try done. }
  destruct (fromstring (ai_response_clean ai)) as [ai_root|] eqn:Hparse.
  - rewrite (reconstruct_parsed ai hdr store ai_root w Hne Hparse).
    cbv zeta. cbn [files api_calls fs_writable log_events fst snd].
    repeat split; done.
  - unfold reconstruct_filtered_dat.
    destruct (String.eqb_spec ai "") as [?|_]; [done|].
    fold (ai_response_clean ai). rewrite Hparse.
    unfold mbind, M_bind, mret, M_ret, print, write_file.
    cbn [console files fs_writable api_calls].
    destruct (fs_writable w) eqn:Ew;
      cbn [console files fs_writable api_calls fst snd];
      (split; [done|]); (split; [done|]); (split; [|done]).
    + intros k Hk. by rewrite lookup_insert_ne.
    + done.
Qed.

Lemma print_effects e w :
  files (print e w).2 = files w
  /\ fs_writable (print e w).2 = fs_writable w
  /\ api_calls (print e w).2 = api_calls w.
Proof. done. Qed.

Lemma process_dat_file_cases {xml : XmlLibrary} {oracle : Oracle}
  {tools : FileTools} filepath score_threshold w ok w' :
  process_dat_file filepath score_threshold w = (ok, w') ->
  api_calls w <= api_calls w' <= S (api_calls w)
  /\ fs_writable w' = fs_writable w
  /\ (ok = true ->
      fs_writable w = true /\ api_calls w' = S (api_calls w)
      /\ exists content final,
           files w !! path_key filepath = Some content /\ final <> ""
           /\ files w'
              = <[expected_output_path filepath content := final]> (files w))
  /\ (ok = false -> only_artifacts w w')
  /\ (original_games_data (catalog_of filepath w) = None ->
      ok = false /\ api_calls w' = api_calls w /\ files w' = files w).
Proof.
  intros H. unfold process_dat_file, read_file in H.
  unfold mbind at 1, M_bind at 1 in H.
  fold (catalog_of filepath w) in H.
  destruct (match files w !! path_key filepath with
            | Some content => iterparse_count content
            | None => (0, Some CountOtherError)
            end) as [counted count_error].
  unfold mbind at 1 2, M_bind at 1 2 in H.
  match type of H with
  | context [match ?m w with (_, _) => _ end] =>
      assert (files (m w).2 = files w /\ fs_writable (m w).2 = fs_writable w
              /\ api_calls (m w).2 = api_calls w) as (Hf0 & Hs0 & Ha0)
        by (by destruct count_error as [[|]|]);
      destruct (m w) as [[] w0]
  end.
  simpl in Hf0, Hs0, Ha0.
  match type of H with
  | context [print ?e w0] =>
      destruct (print_effects e w0) as (Hf1 & Hs1 & Ha1);
      destruct (print e w0) as [[] w1]
  end.
  simpl in Hf1, Hs1, Ha1.
  assert (forall e w2,
            fs_writable w2 = fs_writable w ->
            (forall k, k <> INVALID_ARTIFACT -> k <> FAILED_ARTIFACT ->
                       files w2 !! k = files w !! k) ->
            (print e ≫= (fun _ => mret false)) w2 = (ok, w') ->
            ok = false /\ api_calls w' = api_calls w2
            /\ fs_writable w' = fs_writable w /\ only_artifacts w w')
    as Hfail.
  { intros e w2 Hs2 Hf2 [= <- <-]. done. }
  destruct (original_games_data (catalog_of filepath w)) as [games|] eqn:Eg.
  2:{ injection H as <- <-. cbn [api_calls fs_writable files].
      rewrite Hf1, Hs1, Ha1, Hf0, Hs0, Ha0.
      repeat split; try done. lia. }
  destruct (compressed_dat_content (catalog_of filepath w))
    as [compressed|] eqn:Ec.
  2:{ injection H as <- <-. cbn [api_calls fs_writable files].
      rewrite Hf1, Hs1, Ha1, Hf0, Hs0, Ha0.
      repeat split; try done. lia. }
  unfold mbind at 1, M_bind at 1 in H.
  match type of H with
  | context [call_gemini_api ?p w1] =>
      destruct (call_gemini_api_effects p w1) as (Ca & Cs & Cf & Cr);
      destruct (call_gemini_api p w1) as [[[|c r]|] w2]
  end; simpl in Ca, Cs, Cf, Cr.
  1,3: (destruct (Hfail _ w2 ltac:(congruence)
                   ltac:(intros k Hk1 Hk2; rewrite Cf by done; congruence) H)
         as (-> & Ha & Hs' & Hoa);
       split; [lia|]; split; [done|]; split; [done|]; split; done).
  specialize (Cr ltac:(done)).
  unfold mbind at 1, M_bind at 1 in H.
  match type of H with
  | context [reconstruct_filtered_dat ?a ?h ?g w2] =>
      destruct (reconstruct_effects a h g w2) as (Ra & Rs & Rf & Rr);
      destruct (reconstruct_filtered_dat a h g w2) as [[[|c' r']|] w3]
  end; simpl in Ra, Rs, Rf, Rr.
  1,3: (destruct (Hfail _ w3 ltac:(congruence)
                   ltac:(intros k Hk1 Hk2; rewrite Rf by done; congruence) H)
         as (-> & Ha & Hs' & Hoa);
       split; [lia|]; split; [done|]; split; [done|]; split; done).
  specialize (Rr ltac:(done)).
  unfold mbind at 1, M_bind at 1, write_file in H.
  destruct (fs_writable w3) eqn:Ew3.
  - injection H as <- <-. cbn [api_calls fs_writable files].
    split; [lia|]. split; [congruence|]. split; [|done].
    intros _. split; [congruence|]. split; [lia|].
    unfold catalog_of, expected_output_path in *.
    destruct (files w !! path_key filepath) as [content|]; [|done].
    exists content, (String c' r'). split; [done|]. split; [done|].
    congruence.
  - destruct (Hfail _ w3 ltac:(congruence) ltac:(intros; congruence) H)
      as (-> & Ha & Hs' & Hoa).
    split; [lia|]; split; [done|]; split; [done|]; split; done.
Qed.

(** X15: what one run does to the world.  A run that reports success
    has made exactly one oracle request and changed exactly one file:
    the output, in the directory of the input, named after the maker
    and the platform of the input, with a content that is not empty.  A
    run that reports failure has made at most one request and can have
    changed no file but the two diagnostic artifacts. *)
Theorem process_dat_file_outcome {xml : XmlLibrary} {oracle : Oracle}
  {tools : FileTools} (filepath : FilePath) (score_threshold : Z)
  (w : World) :
  let '(ok, w') := process_dat_file filepath score_threshold w in
  fs_writable w' = fs_writable w
  /\ if ok : bool then
       fs_writable w = true /\ api_calls w' = S (api_calls w)
       /\ exists content final,
            files w !! path_key filepath = Some content /\ final <> ""
            /\ files w'
               = <[expected_output_path filepath content := final]> (files w)
     else api_calls w' <= S (api_calls w) /\ only_artifacts w w'.
Proof.
  destruct (process_dat_file filepath score_threshold w) as [ok w'] eqn:E.
  destruct (process_dat_file_cases _ _ _ _ _ E) as (Ha & Hs & Ht & Hf & _).
  split; [done|]. destruct ok; [by apply Ht|]. split; [lia|by apply Hf].
Qed.

(** X16: an input that cannot be opened or does not parse costs
    nothing: the run fails without a request to the oracle and without
    writing any file. *)
Theorem unparsed_input_costs_nothing {xml : XmlLibrary} {oracle : Oracle}
  {tools : FileTools} (filepath : FilePath) (score_threshold : Z)
  (w : World) :
  (forall content root,
     files w !! path_key filepath = Some content ->
     parse content <> Parsed root) ->
  let '(ok, w') := process_dat_file filepath score_threshold w in
  ok = false /\ api_calls w' = api_calls w /\ files w' = files w.
Proof.
  intros Hbad.
  destruct (process_dat_file filepath score_threshold w) as [ok w'] eqn:E.
  destruct (process_dat_file_cases _ _ _ _ _ E) as (_ & _ & _ & _ & Hn).
  apply Hn. unfold catalog_of.
  destruct (files w !! path_key filepath) as [content|] eqn:Ec; [|done].
  unfold parse_and_compress_dat.
  destruct (parse content) as [root| |] eqn:Ep; try done.
  by destruct (Hbad content root).
Qed.

Lemma unparsed_input_costs_nothing_witness :
  let '(ok, w') :=
    @process_dat_file strict_library plain_oracle sample_tools
      sample_input 75 (input_world "not a document") in
  ok = false /\ api_calls w' = 0
  /\ files w' = files (input_world "not a document").
Proof.
  apply (@unparsed_input_costs_nothing strict_library plain_oracle
           sample_tools sample_input 75 (input_world "not a document")).
  intros content root H.
  assert (content = "not a document") as ->.
  { unfold input_world in H. cbn [files] in H.
    by rewrite lookup_singleton_eq in H; injection H as <-. }
  discriminate.
Defined.

Lemma str_app_inv_head a x y : a +:+ x = a +:+ y -> x = y.
Proof.
  induction a as [|c a IH]; [done|]. rewrite !str_app_cons.
  intros [= H]. by apply IH.
Qed.

Lemma path_join_not_plain parent name s :
  Str.forallb (not_char "/") s = true -> path_join parent name <> s.
Proof.
  intros Hs <-. unfold path_join in Hs.
  rewrite str_forallb_app in Hs. apply andb_true_iff in Hs as [_ Hs].
  done.
Qed.

(** X17: a run leaves its input as it is, whether it succeeds or not,
    when the name of the input has no provenance mark and the cleaned
    output name is within the length cap. *)
Theorem process_dat_file_keeps_input {xml : XmlLibrary} {oracle : Oracle}
  {tools : FileTools} (filepath : FilePath) (score_threshold : Z)
  (w : World) (content : string) :
  let catalog :=
    parse_and_compress_dat (path_stem (path_name filepath)) content in
  files w !! path_key filepath = Some content ->
  Str.contains PROVENANCE_MARK (path_name filepath) = false ->
  (Z.of_nat (Utf8.byte_length
               (clean_filename
                  (output_filename_base (console_maker catalog)
                     (console_name catalog))))
   <= MAX_LEN_BYTES)%Z ->
  files (process_dat_file filepath score_threshold w).2 !! path_key filepath
  = Some content.
Proof.
  intros catalog Hin Hmark Hlen.
  destruct (process_dat_file filepath score_threshold w) as [ok w'] eqn:E.
  destruct (process_dat_file_cases _ _ _ _ _ E) as (_ & _ & Ht & Hf & _).
  cbn [snd]. destruct ok.
  - destruct (Ht eq_refl) as (_ & _ & content' & final & Hin' & _ & ->).
    rewrite Hin in Hin'. injection Hin' as <-.
    rewrite lookup_insert_ne; [done|].
    unfold expected_output_path, path_key, path_join. intros Heq.
    apply str_app_inv_head in Heq.
    change ("/" +:+ ?x) with (String "/" x) in Heq. injection Heq as Heq.
    destruct (sanitize_output_name_tail _ _ Hlen) as [z Hz].
    fold catalog in Heq. rewrite Hz in Heq.
    by rewrite <- Heq, contains_tail in Hmark.
  - destruct (Hf eq_refl) as [_ Hsame]. rewrite Hsame; [done|..];
      by apply path_join_not_plain.
Qed.

Lemma process_dat_file_keeps_input_witness :
  files (@process_dat_file Sample.library plain_oracle sample_tools
           sample_input 75 (input_world "<datafile/>")).2
    !! path_key sample_input
  = Some "<datafile/>".
Proof.
  apply (@process_dat_file_keeps_input Sample.library plain_oracle
           sample_tools sample_input 75 (input_world "<datafile/>")).
  - apply lookup_singleton_eq.
  - vm_compute. reflexivity.
  - vm_compute. discriminate.
Defined.

(** X18: the books of a batch.  Every file is counted once, as a
    success or as a failure; every success has cost one oracle request
    and no file costs more than one; and when the disk cannot be
    written nothing is counted as a success. *)
Theorem process_all_tally {xml : XmlLibrary} {oracle : Oracle}
  {tools : FileTools} (files_to_process : list FilePath)
  (score_threshold : Z) (success_count fail_count : nat) (w : World) :
  let '(success_count', fail_count', w') :=
    process_all files_to_process score_threshold
      (success_count, fail_count) w in
  success_count' + fail_count'
    = success_count + fail_count + length files_to_process
  /\ success_count <= success_count' /\ fail_count <= fail_count'
  /\ api_calls w + (success_count' - success_count) <= api_calls w'
  /\ api_calls w' <= api_calls w + length files_to_process
  /\ fs_writable w' = fs_writable w
  /\ (fs_writable w = false -> success_count' = success_count).
Proof.
  revert success_count fail_count w.
  induction files_to_process as [|dat_file rest IH];
    intros success_count fail_count w.
  { cbn. repeat split; lia. }
  cbn [process_all]. unfold mbind at 1, M_bind at 1.
  destruct (process_dat_file dat_file score_threshold w) as [ok w1] eqn:E.
  destruct (process_dat_file_cases _ _ _ _ _ E) as (Ha & Hs & Ht & _ & _).
  unfold mbind at 1, M_bind at 1.
  match goal with
  | |- context [match ?m w1 with (_, _) => _ end] =>
      assert (fs_writable (m w1).2 = fs_writable w1
              /\ api_calls (m w1).2 = api_calls w1) as (Hs2 & Ha2)
        by (by destruct rest);
      destruct (m w1) as [[] w2]
  end.
  simpl in Hs2, Ha2. cbn [length].
  destruct ok.
  - destruct (Ht eq_refl) as (Hw & Ha1 & _).
    specialize (IH (success_count + 1) fail_count w2).
    destruct (process_all rest score_threshold
                (success_count + 1, fail_count) w2) as [[s' f'] w'].
    destruct IH as (H1 & H2 & H3 & H4 & H5 & H6 & H7).
    split; [lia|]. split; [lia|]. split; [lia|]. split; [lia|].
    split; [lia|]. split; [congruence|]. intros Hro. congruence.
  - specialize (IH success_count (fail_count + 1) w2).
    destruct (process_all rest score_threshold
                (success_count, fail_count + 1) w2) as [[s' f'] w'].
    destruct IH as (H1 & H2 & H3 & H4 & H5 & H6 & H7).
    split; [lia|]. split; [lia|]. split; [lia|]. split; [lia|].
    split; [lia|]. split; [congruence|]. intros Hro. apply H7. congruence.
Qed.

Lemma call_gemini_api_accepts {oracle : Oracle} prompt_text text reason w :
  generate_content prompt_text = ApiAnswer (Some text) reason ->
  has_preamble (normalize_response text) = true ->
  exists w',
    call_gemini_api prompt_text w = (Some (normalize_response text), w')
    /\ files w' = files w /\ fs_writable w' = fs_writable w
    /\ api_calls w' = S (api_calls w).
Proof.
  intros Horacle Hpre. unfold call_gemini_api. rewrite Horacle.
  destruct text as [|c t]; [done|].
  set (n := normalize_response (String c t)) in *.
  unfold mbind, M_bind, mret, M_ret, count_api_call, print.
  rewrite Hpre. cbn [negb]. eexists. split; [reflexivity|]. done.
Qed.

(** X19: a run from end to end.  When the input parses, the oracle
    answers with a text whose normal form starts with a preamble and
    parses, the final document is not empty and the disk can be written,
    the run succeeds with one request, and the one file it changes is
    the output, which holds the document made of the preamble, the
    header part and the stored records of the names the oracle kept,
    each once and in sorted order. *)
Theorem process_dat_file_saves {xml : XmlLibrary} {oracle : Oracle}
  {tools : FileTools} (filepath : FilePath) (score_threshold : Z)
  (w : World) (content compressed text : string)
  (store : gmap string string) (reason : option string)
  (ai_root : Element) :
  let catalog :=
    parse_and_compress_dat (path_stem (path_name filepath)) content in
  let ai := normalize_response text in
  let doc :=
    document (tag ai_root)
      (header_part (default "" (original_header_xml catalog)))
      (omap (emitted store) (unique_kept_names (kept_game_names ai_root)))
  in
  files w !! path_key filepath = Some content ->
  original_games_data catalog = Some store ->
  compressed_dat_content catalog = Some compressed ->
  generate_content
    (format_prompt (console_maker catalog) (console_name catalog)
       score_threshold compressed)
  = ApiAnswer (Some text) reason ->
  has_preamble ai = true ->
  fromstring (ai_response_clean ai) = Some ai_root ->
  finalize doc <> "" ->
  fs_writable w = true ->
  exists w',
    process_dat_file filepath score_threshold w = (true, w')
    /\ api_calls w' = S (api_calls w)
    /\ files w'
       = <[expected_output_path filepath content := finalize doc]> (files w).
Proof.
  intros catalog ai doc Hin Hstore Hcomp Horacle Hpre Hparse Hdoc Hw.
  assert (exists c t, text = String c t) as (c & t & Htext).
  { destruct text as [|c t]; [done|eauto]. }
  assert (ai <> "") as Hai by (by destruct ai).
  unfold process_dat_file, read_file.
  unfold mbind at 1, M_bind at 1. rewrite Hin. fold catalog.
  destruct (iterparse_count content) as [counted count_error].
  unfold mbind at 1 2, M_bind at 1 2.
  match goal with
  | |- context [match ?m w with (_, _) => _ end] =>
      assert (files (m w).2 = files w /\ fs_writable (m w).2 = fs_writable w
              /\ api_calls (m w).2 = api_calls w) as (Hf0 & Hs0 & Ha0)
        by (by destruct count_error as [[|]|]);
      destruct (m w) as [[] w0]
  end.
  simpl in Hf0, Hs0, Ha0.
  match goal with
  | |- context [print ?e w0] =>
      destruct (print_effects e w0) as (Hf1 & Hs1 & Ha1);
      destruct (print e w0) as [[] w1]
  end.
  simpl in Hf1, Hs1, Ha1.
  rewrite Hstore, Hcomp.
  unfold mbind at 1, M_bind at 1.
  destruct (call_gemini_api_accepts _ _ _ w1 Horacle Hpre)
    as (w2 & -> & Hf2 & Hs2 & Ha2).
  fold ai. clearbody ai. destruct ai as [|c0 r0]; [done|].
  unfold mbind at 1, M_bind at 1.
  rewrite (reconstruct_parsed (String c0 r0)
             (default "" (original_header_xml catalog)) store ai_root w2
             Hai Hparse).
  cbv zeta. fold doc.
  destruct (finalize doc) as [|c' r'] eqn:Ef; [done|].
  unfold mbind at 1, M_bind at 1, write_file.
  cbn [fs_writable log_events].
  rewrite Hs2, Hs1, Hs0, Hw.
  unfold mbind, M_bind, mret, M_ret, print.
  eexists. split; [reflexivity|].
  cbn [api_calls files log_events].
  split; [lia|]. unfold expected_output_path. fold catalog.
  by rewrite Hf2, Hf1, Hf0.
Qed.

Lemma process_dat_file_saves_witness :
  exists w',
    @process_dat_file Sample.library plain_oracle sample_tools
      sample_input 75 (input_world "<datafile/>") = (true, w')
    /\ api_calls w' = 1
    /\ files w' !! path_key sample_input = Some "<datafile/>".
Proof.
  destruct (@process_dat_file_saves Sample.library plain_oracle sample_tools
              sample_input 75 (input_world "<datafile/>") "<datafile/>"
              sample_compressed bare_answer Sample.store None
              Sample.oracle_root)
    as (w' & Hrun & Hcalls & Hfiles).
  - apply lookup_singleton_eq.
  - reflexivity.
  - reflexivity.
  - reflexivity.
  - vm_compute. reflexivity.
  - vm_compute. reflexivity.
  - vm_compute. discriminate.
  - reflexivity.
  - exists w'. split; [exact Hrun|]. split; [exact Hcalls|].
    rewrite Hfiles. rewrite lookup_insert_ne by (vm_compute; discriminate).
    apply lookup_singleton_eq.
Defined.
